(** * The Postgres write path of the tuple store: [WriteTuples]

    A shallow embedding of [internal/datastore/postgres/tuple.go].  The
    function talks to three collaborators that live outside that file: the
    squirrel statement builders, the pgx transaction handle and the tables
    of the Postgres schema.  Each of them is modelled below as far as
    [WriteTuples] exercises it; [WriteTuples] itself follows the Go text
    statement by statement. *)

From Stdlib Require Import List String ZArith Bool Lia.
Import ListNotations.
Local Open Scope string_scope.
Local Open Scope Z_scope.
Local Open Scope list_scope.

(** ** Relation tuples (package [v0]) *)

Record ObjectAndRelation := {
  Namespace : string;
  ObjectId : string;
  Relation : string
}.

(** A [v0.User] whose [GetUserset()] is the stored userset. *)
Record User := { GetUserset : ObjectAndRelation }.

Record RelationTuple := {
  TupleObjectAndRelation : ObjectAndRelation;
  TupleUser : User
}.

(** The operation tag is a protobuf enum, an int32 on the Go side: every
    integer is a possible tag, three of them are named. *)
Definition RelationTupleUpdate_Operation := Z.
Definition RelationTupleUpdate_UNKNOWN : RelationTupleUpdate_Operation := 0.
Definition RelationTupleUpdate_CREATE : RelationTupleUpdate_Operation := 1.
Definition RelationTupleUpdate_TOUCH : RelationTupleUpdate_Operation := 2.
Definition RelationTupleUpdate_DELETE : RelationTupleUpdate_Operation := 3.

Record RelationTupleUpdate := {
  Operation : RelationTupleUpdate_Operation;
  Tuple : RelationTuple
}.

(** ** Errors *)

(** Errors raised below [WriteTuples]: the two pgx sentinels it can meet
    and any other driver or builder failure, kept by its message. *)
Inductive cause :=
| ErrNoRows
| ErrTxClosed
| ErrOther (msg : string).

(** What [WriteTuples] returns as its error: either
    [datastore.NewPreconditionFailedErr(tpl)], or [fmt.Errorf(format, err)],
    which keeps the format string and the wrapped error. *)
Inductive error :=
| NewPreconditionFailedErr (tpl : RelationTuple)
| Errorf (format : string) (err : cause).

Definition errUnableToWriteTuples := "unable to write tuples: %w".
Definition errUnableToVerifyNamespace := "unable to verify namespace: %w".
Definition errUnableToVerifyRelation := "unable to verify relation: %w".

Inductive result (E A : Type) :=
| Ok (a : A)
| Err (e : E).
Arguments Ok {E A} a.
Arguments Err {E A} e.

(** ** The schema of [relation_tuple] *)

Inductive Column :=
| colID
| colNamespace
| colObjectID
| colRelation
| colUsersetNamespace
| colUsersetObjectID
| colUsersetRelation
| colCreatedTxn
| colDeletedTxn.

Inductive Table := tableTuple.

Inductive Value :=
| VStr (s : string)
| VInt (z : Z).

(** Modelled from the spec: the constant [liveDeletedTxnID] is declared
    outside tuple.go; it is the LIVE_SENTINEL of the data model, the
    [deletedAt] of a row that is still live (the largest signed 64-bit
    integer in the schema). *)
Definition liveDeletedTxnID : Z := 9223372036854775807.

Record Row := {
  id : Z;
  namespace : string;
  object_id : string;
  relation : string;
  userset_namespace : string;
  userset_object_id : string;
  userset_relation : string;
  created_transaction : Z;
  deleted_transaction : Z
}.

Definition Column_eqb (a b : Column) : bool :=
  match a, b with
  | colID, colID | colNamespace, colNamespace | colObjectID, colObjectID
  | colRelation, colRelation | colUsersetNamespace, colUsersetNamespace
  | colUsersetObjectID, colUsersetObjectID
  | colUsersetRelation, colUsersetRelation
  | colCreatedTxn, colCreatedTxn | colDeletedTxn, colDeletedTxn => true
  | _, _ => false
  end.

Definition Value_eqb (a b : Value) : bool :=
  match a, b with
  | VStr s, VStr t => String.eqb s t
  | VInt x, VInt y => Z.eqb x y
  | _, _ => false
  end.

Definition row_get (r : Row) (c : Column) : Value :=
  match c with
  | colID => VInt (id r)
  | colNamespace => VStr (namespace r)
  | colObjectID => VStr (object_id r)
  | colRelation => VStr (relation r)
  | colUsersetNamespace => VStr (userset_namespace r)
  | colUsersetObjectID => VStr (userset_object_id r)
  | colUsersetRelation => VStr (userset_relation r)
  | colCreatedTxn => VInt (created_transaction r)
  | colDeletedTxn => VInt (deleted_transaction r)
  end.

(** Assigning a value of the wrong type to a column is refused. *)
Definition row_set (r : Row) (c : Column) (v : Value) : option Row :=
  match c, v with
  | colID, VInt z =>
      Some {| id := z; namespace := namespace r; object_id := object_id r;
              relation := relation r; userset_namespace := userset_namespace r;
              userset_object_id := userset_object_id r;
              userset_relation := userset_relation r;
              created_transaction := created_transaction r;
              deleted_transaction := deleted_transaction r |}
  | colNamespace, VStr s =>
      Some {| id := id r; namespace := s; object_id := object_id r;
              relation := relation r; userset_namespace := userset_namespace r;
              userset_object_id := userset_object_id r;
              userset_relation := userset_relation r;
              created_transaction := created_transaction r;
              deleted_transaction := deleted_transaction r |}
  | colObjectID, VStr s =>
      Some {| id := id r; namespace := namespace r; object_id := s;
              relation := relation r; userset_namespace := userset_namespace r;
              userset_object_id := userset_object_id r;
              userset_relation := userset_relation r;
              created_transaction := created_transaction r;
              deleted_transaction := deleted_transaction r |}
  | colRelation, VStr s =>
      Some {| id := id r; namespace := namespace r; object_id := object_id r;
              relation := s; userset_namespace := userset_namespace r;
              userset_object_id := userset_object_id r;
              userset_relation := userset_relation r;
              created_transaction := created_transaction r;
              deleted_transaction := deleted_transaction r |}
  | colUsersetNamespace, VStr s =>
      Some {| id := id r; namespace := namespace r; object_id := object_id r;
              relation := relation r; userset_namespace := s;
              userset_object_id := userset_object_id r;
              userset_relation := userset_relation r;
              created_transaction := created_transaction r;
              deleted_transaction := deleted_transaction r |}
  | colUsersetObjectID, VStr s =>
      Some {| id := id r; namespace := namespace r; object_id := object_id r;
              relation := relation r; userset_namespace := userset_namespace r;
              userset_object_id := s;
              userset_relation := userset_relation r;
              created_transaction := created_transaction r;
              deleted_transaction := deleted_transaction r |}
  | colUsersetRelation, VStr s =>
      Some {| id := id r; namespace := namespace r; object_id := object_id r;
              relation := relation r; userset_namespace := userset_namespace r;
              userset_object_id := userset_object_id r;
              userset_relation := s;
              created_transaction := created_transaction r;
              deleted_transaction := deleted_transaction r |}
  | colCreatedTxn, VInt z =>
      Some {| id := id r; namespace := namespace r; object_id := object_id r;
              relation := relation r; userset_namespace := userset_namespace r;
              userset_object_id := userset_object_id r;
              userset_relation := userset_relation r;
              created_transaction := z;
              deleted_transaction := deleted_transaction r |}
  | colDeletedTxn, VInt z =>
      Some {| id := id r; namespace := namespace r; object_id := object_id r;
              relation := relation r; userset_namespace := userset_namespace r;
              userset_object_id := userset_object_id r;
              userset_relation := userset_relation r;
              created_transaction := created_transaction r;
              deleted_transaction := z |}
  | _, _ => None
  end.

(** ** The squirrel builders, as far as tuple.go uses them *)

(** [sq.Eq]: a conjunction of [column = value] tests. *)
Definition Eq := list (Column * Value).

Record SelectBuilder := {
  sel_columns : list Column;
  sel_from : option Table;
  sel_where : list Eq;
  sel_limit : option nat
}.

Record UpdateBuilder := {
  upd_table : Table;
  upd_where : list Eq;
  upd_set : list (Column * Value)
}.

Record InsertBuilder := {
  ins_into : Table;
  ins_columns : list Column;
  ins_values : list (list Value)
}.

Module psql.

Definition Select (cols : list Column) : SelectBuilder :=
  {| sel_columns := cols; sel_from := None; sel_where := []; sel_limit := None |}.

Definition Update (t : Table) : UpdateBuilder :=
  {| upd_table := t; upd_where := []; upd_set := [] |}.

Definition Insert (t : Table) : InsertBuilder :=
  {| ins_into := t; ins_columns := []; ins_values := [] |}.

End psql.

Definition From (b : SelectBuilder) (t : Table) : SelectBuilder :=
  {| sel_columns := sel_columns b; sel_from := Some t;
     sel_where := sel_where b; sel_limit := sel_limit b |}.

Definition SelectWhere (b : SelectBuilder) (p : Eq) : SelectBuilder :=
  {| sel_columns := sel_columns b; sel_from := sel_from b;
     sel_where := sel_where b ++ [p]; sel_limit := sel_limit b |}.

Definition Limit (b : SelectBuilder) (n : nat) : SelectBuilder :=
  {| sel_columns := sel_columns b; sel_from := sel_from b;
     sel_where := sel_where b; sel_limit := Some n |}.

Definition UpdateWhere (b : UpdateBuilder) (p : Eq) : UpdateBuilder :=
  {| upd_table := upd_table b; upd_where := upd_where b ++ [p];
     upd_set := upd_set b |}.

Definition UpdateSet (b : UpdateBuilder) (c : Column) (v : Value) : UpdateBuilder :=
  {| upd_table := upd_table b; upd_where := upd_where b;
     upd_set := upd_set b ++ [(c, v)] |}.

Definition Columns (b : InsertBuilder) (cols : list Column) : InsertBuilder :=
  {| ins_into := ins_into b; ins_columns := ins_columns b ++ cols;
     ins_values := ins_values b |}.

Definition Values (b : InsertBuilder) (vals : list Value) : InsertBuilder :=
  {| ins_into := ins_into b; ins_columns := ins_columns b;
     ins_values := ins_values b ++ [vals] |}.

(** A statement that [ToSql] accepted: a query for [QueryRow], a command
    for [Exec]. *)
Inductive Query := SelectSql (b : SelectBuilder).
Inductive Command :=
| UpdateSql (b : UpdateBuilder)
| InsertSql (b : InsertBuilder).

(** [ToSql] refuses a select without result column, an update without
    [Set] clause and an insert without values. *)
Definition SelectToSql (b : SelectBuilder) : result cause Query :=
  match sel_columns b with
  | [] => Err (ErrOther "select statements must have at least one result column")
  | _ :: _ => Ok (SelectSql b)
  end.

Definition UpdateToSql (b : UpdateBuilder) : result cause Command :=
  match upd_set b with
  | [] => Err (ErrOther "update statements must have at least one Set clause")
  | _ :: _ => Ok (UpdateSql b)
  end.

Definition InsertToSql (b : InsertBuilder) : result cause Command :=
  match ins_values b with
  | [] => Err (ErrOther "insert statements must have at least one set of values or select clause")
  | _ :: _ => Ok (InsertSql b)
  end.

(** ** The package-level statements of tuple.go *)

Definition writeTuple : InsertBuilder :=
  Columns (psql.Insert tableTuple)
    [colNamespace; colObjectID; colRelation; colUsersetNamespace;
     colUsersetObjectID; colUsersetRelation; colCreatedTxn].

Definition deleteTuple : UpdateBuilder :=
  UpdateWhere (psql.Update tableTuple) [(colDeletedTxn, VInt liveDeletedTxnID)].

Definition queryTupleExists : SelectBuilder :=
  From (psql.Select [colID]) tableTuple.

Definition exactTupleClause (tpl : RelationTuple) : Eq :=
  [ (colNamespace, VStr (Namespace (TupleObjectAndRelation tpl)));
    (colObjectID, VStr (ObjectId (TupleObjectAndRelation tpl)));
    (colRelation, VStr (Relation (TupleObjectAndRelation tpl)));
    (colUsersetNamespace, VStr (Namespace (GetUserset (TupleUser tpl))));
    (colUsersetObjectID, VStr (ObjectId (GetUserset (TupleUser tpl))));
    (colUsersetRelation, VStr (Relation (GetUserset (TupleUser tpl)))) ].

(** ** The storage engine

    A Postgres connection pool seen through pgx, reduced to what
    [WriteTuples] asks of it: one table of tuple rows, the table of
    transactions whose identifiers are the revisions, two sequences, and
    one transaction at a time. *)

Record Tables := {
  relation_tuple : list Row;
  relation_tuple_transaction : list Z
}.

Inductive Event :=
| EvBegin
| EvQueryRow (q : Query)
| EvCreateTxn
| EvExec (c : Command)
| EvCommit
| EvRollback.

(** [committed] is what every reader sees; [active] is the working copy of
    the open transaction, if any.  The sequences are not transactional (a
    rollback does not give a value back).  [uq_tuple_living] says whether
    the schema carries the uniqueness constraint on live rows: the table
    is declared outside tuple.go, so the constraint is a parameter of the
    store.  [script]
    lists, call by call, the failure the driver injects into the next
    engine calls ([None]: the call goes through); [log] records the calls
    issued, oldest first. *)
Record World := {
  committed : Tables;
  active : option Tables;
  tuple_id_seq : Z;
  txn_id_seq : Z;
  uq_tuple_living : bool;
  script : list (option string);
  log : list Event
}.

Definition set_active (a : option Tables) (w : World) : World :=
  {| committed := committed w; active := a; tuple_id_seq := tuple_id_seq w;
     txn_id_seq := txn_id_seq w; uq_tuple_living := uq_tuple_living w;
     script := script w; log := log w |}.

Definition set_committed (t : Tables) (w : World) : World :=
  {| committed := t; active := active w; tuple_id_seq := tuple_id_seq w;
     txn_id_seq := txn_id_seq w; uq_tuple_living := uq_tuple_living w;
     script := script w; log := log w |}.

Definition set_tuple_id_seq (n : Z) (w : World) : World :=
  {| committed := committed w; active := active w; tuple_id_seq := n;
     txn_id_seq := txn_id_seq w; uq_tuple_living := uq_tuple_living w;
     script := script w; log := log w |}.

Definition set_txn_id_seq (n : Z) (w : World) : World :=
  {| committed := committed w; active := active w; tuple_id_seq := tuple_id_seq w;
     txn_id_seq := n; uq_tuple_living := uq_tuple_living w;
     script := script w; log := log w |}.

(** Every engine call is recorded and consumes one entry of the script. *)
Definition issue (ev : Event) (w : World) : World * option string :=
  ({| committed := committed w; active := active w;
      tuple_id_seq := tuple_id_seq w; txn_id_seq := txn_id_seq w;
      uq_tuple_living := uq_tuple_living w;
      script := tl (script w); log := log w ++ [ev] |},
   match script w with
   | Some msg :: _ => Some msg
   | _ => None
   end).

(** *** Evaluation of statements on a table *)

Definition eq_matches (p : Eq) (r : Row) : bool :=
  forallb (fun cv => Value_eqb (row_get r (fst cv)) (snd cv)) p.

Definition where_matches (ws : list Eq) (r : Row) : bool :=
  forallb (fun p => eq_matches p r) ws.

Definition run_select (b : SelectBuilder) (rows : list Row) : list (list Value) :=
  let hits := filter (where_matches (sel_where b)) rows in
  let hits := match sel_limit b with
              | Some n => firstn n hits
              | None => hits
              end in
  map (fun r => map (row_get r) (sel_columns b)) hits.

Fixpoint apply_sets (sets : list (Column * Value)) (r : Row) : option Row :=
  match sets with
  | [] => Some r
  | (c, v) :: rest =>
      match row_set r c v with
      | Some r' => apply_sets rest r'
      | None => None
      end
  end.

Fixpoint run_update (b : UpdateBuilder) (rows : list Row) : option (list Row) :=
  match rows with
  | [] => Some []
  | r :: rest =>
      match (if where_matches (upd_where b) r then apply_sets (upd_set b) r else Some r),
            run_update b rest with
      | Some r', Some rest' => Some (r' :: rest')
      | _, _ => None
      end
  end.

Fixpoint lookup (c : Column) (a : list (Column * Value)) : option Value :=
  match a with
  | [] => None
  | (c', v) :: rest => if Column_eqb c c' then Some v else lookup c rest
  end.

Definition lookup_str (c : Column) (a : list (Column * Value)) : option string :=
  match lookup c a with
  | Some (VStr s) => Some s
  | _ => None
  end.

Definition lookup_int (c : Column) (a : list (Column * Value)) : option Z :=
  match lookup c a with
  | Some (VInt z) => Some z
  | _ => None
  end.

(** Modelled from the spec: the table definition is not in tuple.go.  A
    new row takes its [id] from the sequence, needs the six key columns and
    [created_transaction], and is live unless [deleted_transaction] is
    given ("only deletedAt transitions once, from sentinel to a concrete
    value"). *)
Definition new_row (newid : Z) (cols : list Column) (vals : list Value) : option Row :=
  if Nat.eqb (List.length cols) (List.length vals) then
    let a := combine cols vals in
    match lookup_str colNamespace a, lookup_str colObjectID a,
          lookup_str colRelation a, lookup_str colUsersetNamespace a,
          lookup_str colUsersetObjectID a, lookup_str colUsersetRelation a,
          lookup_int colCreatedTxn a with
    | Some ns, Some oid, Some rel, Some uns, Some uoid, Some urel, Some c =>
        Some {| id := newid; namespace := ns; object_id := oid; relation := rel;
                userset_namespace := uns; userset_object_id := uoid;
                userset_relation := urel; created_transaction := c;
                deleted_transaction :=
                  match lookup_int colDeletedTxn a with
                  | Some d => d
                  | None => liveDeletedTxnID
                  end |}
    | _, _, _, _, _, _, _ => None
    end
  else None.

Fixpoint run_insert (lastid : Z) (cols : list Column) (vals : list (list Value))
  : option (list Row) :=
  match vals with
  | [] => Some []
  | v :: rest =>
      match new_row (lastid + 1) cols v, run_insert (lastid + 1) cols rest with
      | Some r, Some rs => Some (r :: rs)
      | _, _ => None
      end
  end.

Definition is_live (r : Row) : bool :=
  Z.eqb (deleted_transaction r) liveDeletedTxnID.

Definition same_key (a b : Row) : bool :=
  String.eqb (namespace a) (namespace b)
  && String.eqb (object_id a) (object_id b)
  && String.eqb (relation a) (relation b)
  && String.eqb (userset_namespace a) (userset_namespace b)
  && String.eqb (userset_object_id a) (userset_object_id b)
  && String.eqb (userset_relation a) (userset_relation b).

(** Modelled from the spec: the uniqueness constraint of the storage layer
    is declared with the schema, not in tuple.go: "at most one live
    StoredRow per TupleKey". *)
Fixpoint unique_live (rows : list Row) : bool :=
  match rows with
  | [] => true
  | r :: rest =>
      negb (is_live r && existsb (fun r' => is_live r' && same_key r r') rest)
      && unique_live rest
  end.

Definition constraints_hold (w : World) (rows : list Row) : bool :=
  negb (uq_tuple_living w) || unique_live rows.

(** *** Engine calls

    Code that calls the engine threads the [World] and stops at the first
    error, as the Go code does with [if err != nil { return ... }]. *)

Definition M (E A : Type) := World -> World * result E A.

Definition ret {E A} (a : A) : M E A := fun w => (w, Ok a).

Definition lift {E A} (r : result E A) : M E A := fun w => (w, r).

Definition bind {E A B} (m : M E A) (k : A -> M E B) : M E B :=
  fun w =>
    match m w with
    | (w', Ok a) => k a w'
    | (w', Err e) => (w', Err e)
    end.

Definition mapErr {E E' A} (f : E -> E') (m : M E A) : M E' A :=
  fun w =>
    match m w with
    | (w', Ok a) => (w', Ok a)
    | (w', Err e) => (w', Err (f e))
    end.

(** [defer d; body]: [d] runs when [body] returns, whatever it returns;
    its own result is dropped. *)
Definition defer {E E' A B} (d : M E' B) (body : M E A) : M E A :=
  fun w =>
    match body w with
    | (w', r) => (fst (d w'), r)
    end.

Declare Scope go_scope.
Delimit Scope go_scope with go.
Notation "x <- c ;; k" := (bind c (fun x => k))
  (at level 100, c at next level, right associativity) : go_scope.
Notation "c ;;; k" := (bind c (fun _ => k))
  (at level 100, right associativity) : go_scope.
Local Open Scope go_scope.

Definition scanInt (vals : list Value) : result cause Z :=
  match vals with
  | [VInt z] => Ok z
  | _ => Err (ErrOther "can't scan into dest")
  end.

(** [pgd.dbpool.Begin(ctx)]: the transaction starts from the committed
    state. *)
Definition Begin : M cause unit :=
  fun w =>
    match issue EvBegin w with
    | (w1, Some msg) => (w1, Err (ErrOther msg))
    | (w1, None) => (set_active (Some (committed w1)) w1, Ok tt)
    end.

(** [tx.Rollback(ctx)]: discards the working copy; on a transaction that
    is already closed it does nothing and says so. *)
Definition Rollback : M cause unit :=
  fun w =>
    match issue EvRollback w with
    | (w1, Some msg) => (set_active None w1, Err (ErrOther msg))
    | (w1, None) =>
        match active w1 with
        | None => (w1, Err ErrTxClosed)
        | Some _ => (set_active None w1, Ok tt)
        end
    end.

(** [tx.Commit(ctx)]: publishes the working copy. *)
Definition Commit : M cause unit :=
  fun w =>
    match issue EvCommit w with
    | (w1, Some msg) => (w1, Err (ErrOther msg))
    | (w1, None) =>
        match active w1 with
        | None => (w1, Err ErrTxClosed)
        | Some t => (set_active None (set_committed t w1), Ok tt)
        end
    end.

(** [tx.QueryRow(ctx, sql, args...).Scan(&foundID)]. *)
Definition QueryRowScan (q : Query) : M cause Z :=
  fun w =>
    match issue (EvQueryRow q) w with
    | (w1, Some msg) => (w1, Err (ErrOther msg))
    | (w1, None) =>
        match active w1, q with
        | None, _ => (w1, Err ErrTxClosed)
        | Some t, SelectSql b =>
            match sel_from b with
            | None => (w1, Err (ErrOther "syntax error"))
            | Some tableTuple =>
                match run_select b (relation_tuple t) with
                | [] => (w1, Err ErrNoRows)
                | vals :: _ => (w1, scanInt vals)
                end
            end
        end
    end.

Definition set_rows (rows : list Row) (t : Tables) : Tables :=
  {| relation_tuple := rows;
     relation_tuple_transaction := relation_tuple_transaction t |}.

(** [tx.Exec(ctx, sql, args...)]: the number of rows affected, or the
    error of a statement the table refuses. *)
Definition Exec (c : Command) : M cause Z :=
  fun w =>
    match issue (EvExec c) w with
    | (w1, Some msg) => (w1, Err (ErrOther msg))
    | (w1, None) =>
        match active w1, c with
        | None, _ => (w1, Err ErrTxClosed)
        | Some t, UpdateSql b =>
            match run_update b (relation_tuple t) with
            | None => (w1, Err (ErrOther "datatype mismatch"))
            | Some rows' =>
                if constraints_hold w1 rows' then
                  (set_active (Some (set_rows rows' t)) w1,
                   Ok (Z.of_nat (List.length
                         (filter (where_matches (upd_where b)) (relation_tuple t)))))
                else
                  (w1, Err (ErrOther "duplicate key value violates unique constraint"))
            end
        | Some t, InsertSql b =>
            match run_insert (tuple_id_seq w1) (ins_columns b) (ins_values b) with
            | None => (w1, Err (ErrOther "datatype mismatch"))
            | Some new =>
                let w2 := set_tuple_id_seq
                            (tuple_id_seq w1 + Z.of_nat (List.length new)) w1 in
                if constraints_hold w2 (relation_tuple t ++ new) then
                  (set_active (Some (set_rows (relation_tuple t ++ new) t)) w2,
                   Ok (Z.of_nat (List.length new)))
                else
                  (w2, Err (ErrOther "duplicate key value violates unique constraint"))
            end
        end
    end.

(** ** Revisions *)

Definition Revision := Z.

(** Modelled from the spec: [createNewTransaction] is defined outside
    tuple.go.  Revision Allocator: "produces a strictly increasing
    identifier", one per call, inside the transaction of the caller; the
    identifier is a row of the transaction table of that transaction and is
    never the live sentinel. *)
Definition createNewTransaction : M cause Z :=
  fun w =>
    match issue EvCreateTxn w with
    | (w1, Some msg) => (w1, Err (ErrOther msg))
    | (w1, None) =>
        match active w1 with
        | None => (w1, Err ErrTxClosed)
        | Some t =>
            let n := txn_id_seq w1 + 1 in
            if n <? liveDeletedTxnID then
              (set_active
                 (Some {| relation_tuple := relation_tuple t;
                          relation_tuple_transaction :=
                            relation_tuple_transaction t ++ [n] |})
                 (set_txn_id_seq n w1),
               Ok n)
            else (w1, Err (ErrOther "nextval: reached maximum value of sequence"))
        end
    end.

(** Modelled from the spec: [revisionFromTransaction] is defined outside
    tuple.go.  Revision codec: "derived deterministically and monotonically
    from a committed transaction identifier". *)
Definition revisionFromTransaction (txID : Z) : Revision := txID.

(** ** [WriteTuples] *)

(** [fmt.Errorf(errUnableToWriteTuples, err)] on the error path. *)
Definition wrap {A} (m : M cause A) : M error A :=
  mapErr (Errorf errUnableToWriteTuples) m.

(** The body of the loop over [preconditions] (tuple.go, lines 47-60). *)
Definition checkPrecondition (tpl : RelationTuple) : M error unit :=
  sql <- wrap (lift (SelectToSql
                 (Limit (SelectWhere queryTupleExists (exactTupleClause tpl)) 1))) ;;
  foundID <- mapErr (fun err =>
                       match err with
                       | ErrNoRows => NewPreconditionFailedErr tpl
                       | _ => Errorf errUnableToWriteTuples err
                       end)
                    (QueryRowScan sql) ;;
  ret tt.

Fixpoint checkPreconditions (preconditions : list RelationTuple) : M error unit :=
  match preconditions with
  | [] => ret tt
  | tpl :: rest => checkPrecondition tpl ;;; checkPreconditions rest
  end.

Definition isTouchOrDelete (mutation : RelationTupleUpdate) : bool :=
  Z.eqb (Operation mutation) RelationTupleUpdate_TOUCH
  || Z.eqb (Operation mutation) RelationTupleUpdate_DELETE.

Definition isTouchOrCreate (mutation : RelationTupleUpdate) : bool :=
  Z.eqb (Operation mutation) RelationTupleUpdate_TOUCH
  || Z.eqb (Operation mutation) RelationTupleUpdate_CREATE.

Definition tupleValues (tpl : RelationTuple) (newTxnID : Z) : list Value :=
  [ VStr (Namespace (TupleObjectAndRelation tpl));
    VStr (ObjectId (TupleObjectAndRelation tpl));
    VStr (Relation (TupleObjectAndRelation tpl));
    VStr (Namespace (GetUserset (TupleUser tpl)));
    VStr (ObjectId (GetUserset (TupleUser tpl)));
    VStr (Relation (GetUserset (TupleUser tpl)));
    VInt newTxnID ].

(** The body of the loop over [mutations] (tuple.go, lines 73-97); the
    pair is [(bulkWrite, bulkWriteHasValues)]. *)
Definition processUpdate (newTxnID : Z) (mutation : RelationTupleUpdate)
    (acc : InsertBuilder * bool) : M error (InsertBuilder * bool) :=
  let tpl := Tuple mutation in
  (if isTouchOrDelete mutation then
     sql <- wrap (lift (UpdateToSql
                    (UpdateSet (UpdateWhere deleteTuple (exactTupleClause tpl))
                               colDeletedTxn (VInt newTxnID)))) ;;
     wrap (Exec sql) ;;;
     ret tt
   else ret tt) ;;;
  if isTouchOrCreate mutation then
    ret (Values (fst acc) (tupleValues tpl newTxnID), true)
  else ret acc.

Fixpoint processUpdates (newTxnID : Z) (mutations : list RelationTupleUpdate)
    (acc : InsertBuilder * bool) : M error (InsertBuilder * bool) :=
  match mutations with
  | [] => ret acc
  | mutation :: rest =>
      acc' <- processUpdate newTxnID mutation acc ;;
      processUpdates newTxnID rest acc'
  end.

(** The block that runs the batched insert (tuple.go, lines 100-110). *)
Definition executeBulkWrite (acc : InsertBuilder * bool) : M error unit :=
  if snd acc then
    sql <- wrap (lift (InsertToSql (fst acc))) ;;
    wrap (Exec sql) ;;;
    ret tt
  else ret tt.

(** What follows [defer tx.Rollback(ctx)] in [WriteTuples]. *)
Definition writeInTransaction (preconditions : list RelationTuple)
    (mutations : list RelationTupleUpdate) : M error Revision :=
  (* Check the preconditions *)
  checkPreconditions preconditions ;;;
  newTxnID <- wrap createNewTransaction ;;
  let bulkWrite := writeTuple in
  let bulkWriteHasValues := false in
  (* Process the actual updates *)
  acc <- processUpdates newTxnID mutations (bulkWrite, bulkWriteHasValues) ;;
  executeBulkWrite acc ;;;
  wrap Commit ;;;
  ret (revisionFromTransaction newTxnID).

(** [WriteTuples]: [Err e] stands for the Go result
    [(datastore.NoRevision, e)], [Ok r] for [(r, nil)].  The context
    (tracing, cancellation) is not part of the model: a cancelled call is
    one of the failures of the script. *)
Definition WriteTuples (preconditions : list RelationTuple)
    (mutations : list RelationTupleUpdate) : M error Revision :=
  wrap Begin ;;;
  defer Rollback (writeInTransaction preconditions mutations).

(** * Vocabulary of the properties *)

(** ** Statements, rows and keys *)

Definition has_key (tpl : RelationTuple) (r : Row) : bool :=
  eq_matches (exactTupleClause tpl) r.

Definition preconditionQuery (tpl : RelationTuple) : Query :=
  SelectSql (Limit (SelectWhere queryTupleExists (exactTupleClause tpl)) 1).

Definition closeCommand (newTxnID : Z) (tpl : RelationTuple) : Command :=
  UpdateSql (UpdateSet (UpdateWhere deleteTuple (exactTupleClause tpl))
                       colDeletedTxn (VInt newTxnID)).

Definition set_deleted (n : Z) (r : Row) : Row :=
  {| id := id r; namespace := namespace r; object_id := object_id r;
     relation := relation r; userset_namespace := userset_namespace r;
     userset_object_id := userset_object_id r;
     userset_relation := userset_relation r;
     created_transaction := created_transaction r;
     deleted_transaction := n |}.

Definition close_row (n : Z) (tpl : RelationTuple) (r : Row) : Row :=
  if is_live r && has_key tpl r then set_deleted n r else r.

Definition is_prefix {A} (l1 l2 : list A) : Prop := exists rest, l2 = l1 ++ rest.

Definition closed_count (tpl : RelationTuple) (rows : list Row) : Z :=
  Z.of_nat (List.length (filter (fun r => is_live r && has_key tpl r) rows)).

(** ** How a computation moves the world *)

(** [evolves evs w w']: from [w] to [w'] the calls [evs] were issued, each
    consuming one entry of the script; the schema did not change. *)
Definition evolves (evs : list Event) (w w' : World) : Prop :=
  log w' = log w ++ evs
  /\ script w' = skipn (List.length evs) (script w)
  /\ uq_tuple_living w' = uq_tuple_living w.

(** The frame of a computation that stays inside the transaction: what
    readers see and both sequences are untouched. *)
Definition same_store (w w' : World) : Prop :=
  committed w' = committed w
  /\ tuple_id_seq w' = tuple_id_seq w
  /\ txn_id_seq w' = txn_id_seq w.

(** ** What the mutation loop plans *)

Definition closes (mutations : list RelationTupleUpdate) : list RelationTuple :=
  map Tuple (filter isTouchOrDelete mutations).

Definition staged (mutations : list RelationTupleUpdate) : list RelationTuple :=
  map Tuple (filter isTouchOrCreate mutations).

Definition stage (n : Z) (acc : InsertBuilder * bool) (mutation : RelationTupleUpdate)
  : InsertBuilder * bool :=
  if isTouchOrCreate mutation
  then (Values (fst acc) (tupleValues (Tuple mutation) n), true)
  else acc.

Definition apply_closes (n : Z) (ks : list RelationTuple) (rows : list Row) : list Row :=
  fold_left (fun rows k => map (close_row n k) rows) ks rows.

(** ** The rows of the batched insert *)

Definition tuple_row (i : Z) (n : Z) (k : RelationTuple) : Row :=
  {| id := i;
     namespace := Namespace (TupleObjectAndRelation k);
     object_id := ObjectId (TupleObjectAndRelation k);
     relation := Relation (TupleObjectAndRelation k);
     userset_namespace := Namespace (GetUserset (TupleUser k));
     userset_object_id := ObjectId (GetUserset (TupleUser k));
     userset_relation := Relation (GetUserset (TupleUser k));
     created_transaction := n;
     deleted_transaction := liveDeletedTxnID |}.

Fixpoint new_rows (lastid : Z) (n : Z) (ks : list RelationTuple) : list Row :=
  match ks with
  | [] => []
  | k :: rest => tuple_row (lastid + 1) n k :: new_rows (lastid + 1) n rest
  end.

(** The builder that reaches [ToSql] after the loop. *)
Definition bulkWriteOf (n : Z) (mutations : list RelationTupleUpdate) : InsertBuilder :=
  {| ins_into := tableTuple;
     ins_columns := ins_columns writeTuple;
     ins_values := map (fun k => tupleValues k n) (staged mutations) |}.

(** ** The calls of a complete run *)

Definition plannedExecs (n : Z) (mutations : list RelationTupleUpdate) : list Command :=
  map (closeCommand n) (closes mutations)
  ++ (if existsb isTouchOrCreate mutations
      then [InsertSql (bulkWriteOf n mutations)] else []).

Definition plannedQueries (preconditions : list RelationTuple) : list Event :=
  map (fun tpl => EvQueryRow (preconditionQuery tpl)) preconditions.

Definition plannedInTransaction (n : Z) (preconditions : list RelationTuple)
    (mutations : list RelationTupleUpdate) : list Event :=
  plannedQueries preconditions
  ++ EvCreateTxn :: map EvExec (plannedExecs n mutations) ++ [EvCommit].

Definition closedAndInserted (n : Z) (mutations : list RelationTupleUpdate)
    (lastid : Z) (rows : list Row) : list Row :=
  apply_closes n (closes mutations) rows ++ new_rows lastid n (staged mutations).

(** What a call that got its transaction did: the calls issued between
    [Begin] and the deferred [Rollback] are an initial segment of the
    planned ones; a success went through all of them and published the
    closed and inserted rows under the allocated identifier; a failure
    left the committed state as it was. *)
Definition in_transaction_outcome (n : Z) (pre : list RelationTuple)
    (muts : list RelationTupleUpdate) (w w' : World) (r : result error Revision)
    (calls : list Event) : Prop :=
  match r with
  | Ok rev =>
      calls = plannedInTransaction n pre muts
      /\ rev = revisionFromTransaction n
      /\ n < liveDeletedTxnID
      /\ txn_id_seq w' = n
      /\ tuple_id_seq w' = tuple_id_seq w + Z.of_nat (List.length (staged muts))
      /\ committed w' =
         {| relation_tuple :=
              closedAndInserted n muts (tuple_id_seq w) (relation_tuple (committed w));
            relation_tuple_transaction :=
              relation_tuple_transaction (committed w) ++ [n] |}
      /\ Forall (fun tpl => existsb (has_key tpl) (relation_tuple (committed w)) = true) pre
      /\ (existsb isTouchOrCreate muts = true ->
          constraints_hold w
            (closedAndInserted n muts (tuple_id_seq w) (relation_tuple (committed w))) = true)
  | Err e =>
      committed w' = committed w
      /\ ((exists tpl checked,
             e = NewPreconditionFailedErr tpl /\ In tpl pre
             /\ existsb (has_key tpl) (relation_tuple (committed w)) = false
             /\ is_prefix checked pre /\ calls = plannedQueries checked
             /\ same_store w w')
          \/ (exists c, e = Errorf errUnableToWriteTuples c /\ c <> ErrNoRows))
  end.

Definition close_any (n : Z) (ks : list RelationTuple) (r : Row) : Row :=
  if is_live r && existsb (fun k => has_key k r) ks then set_deleted n r else r.

Definition live_with_key (k : RelationTuple) (r : Row) : bool :=
  is_live r && has_key k r.

(** ** Reading the log *)

Definition execs (evs : list Event) : list Command :=
  flat_map (fun ev => match ev with EvExec c => [c] | _ => [] end) evs.

(** [stamped n c]: every revision the command writes is [n], the
    [deleted_transaction] a close sets and the [created_transaction] of
    every row an insert brings. *)
Definition stamped (n : Z) (c : Command) : Prop :=
  match c with
  | UpdateSql b => upd_set b = [(colDeletedTxn, VInt n)]
  | InsertSql b =>
      Forall (fun vals => lookup colCreatedTxn (combine (ins_columns b) vals)
                          = Some (VInt n)) (ins_values b)
  end.

(** ** Successive calls, idempotent deletes *)

Definition call : Type := list RelationTuple * list RelationTupleUpdate.

Fixpoint run_calls (cs : list call) (w : World) : World :=
  match cs with
  | [] => w
  | c :: rest => run_calls rest (fst (WriteTuples (fst c) (snd c) w))
  end.

Definition deletesAbsentKey (rows : list Row) (m : RelationTupleUpdate) : Prop :=
  Operation m = RelationTupleUpdate_DELETE
  /\ existsb (live_with_key (Tuple m)) rows = false.

(** ** Concrete tuples, rows and pools *)

Definition viewerOf (oid uid : string) : RelationTuple :=
  {| TupleObjectAndRelation :=
       {| Namespace := "document"; ObjectId := oid; Relation := "viewer" |};
     TupleUser :=
       {| GetUserset := {| Namespace := "user"; ObjectId := uid; Relation := "..." |} |} |}.

Definition viewerRow (i : Z) (oid uid : string) (created deleted : Z) : Row :=
  {| id := i; namespace := "document"; object_id := oid; relation := "viewer";
     userset_namespace := "user"; userset_object_id := uid; userset_relation := "...";
     created_transaction := created; deleted_transaction := deleted |}.

(** A pool after three transactions, with the uniqueness constraint in
    the schema and the given rows and failures to come. *)
Definition poolWith (rows : list Row) (failures : list (option string)) : World :=
  {| committed := {| relation_tuple := rows; relation_tuple_transaction := [1; 2; 3] |};
     active := None; tuple_id_seq := 10; txn_id_seq := 3;
     uq_tuple_living := true; script := failures; log := [] |}.

Definition update (op : RelationTupleUpdate_Operation) (tpl : RelationTuple)
  : RelationTupleUpdate :=
  {| Operation := op; Tuple := tpl |}.

(** ** The stage of a failure *)

Inductive Stage := PreconditionCheck | WriteExecution | CommitStage.

Definition stage_of_call (ev : Event) : option Stage :=
  match ev with
  | EvQueryRow _ => Some PreconditionCheck
  | EvExec _ => Some WriteExecution
  | EvCommit => Some CommitStage
  | _ => None
  end.

(** The stage of the call that failed: the last one issued before the
    deferred [Rollback]. *)
Definition failed_stage (w' : World) : option Stage :=
  match rev (log w') with
  | EvRollback :: ev :: _ => stage_of_call ev
  | _ => None
  end.

(** One live row: alice views the plan. *)
Definition alicePool : World :=
  poolWith [viewerRow 1 "plan" "alice" 1 liveDeletedTxnID] [].

Definition touchAndCreate : list RelationTupleUpdate :=
  [update RelationTupleUpdate_TOUCH (viewerOf "plan" "alice");
   update RelationTupleUpdate_CREATE (viewerOf "plan" "bob")].

Definition deleteBob : list RelationTupleUpdate :=
  [update RelationTupleUpdate_DELETE (viewerOf "plan" "bob")].

(** The commit of the same call fails. *)
Definition commitFails : World :=
  poolWith [viewerRow 1 "plan" "alice" 1 liveDeletedTxnID]
           [None; None; None; None; None; Some "connection reset"].

(** * Lemmas on the engine and on the stages of [WriteTuples] *)

(** ** The engine calls, one equation each *)

Lemma filter_nil_existsb {A} (f : A -> bool) (l : list A) :
  filter f l = [] <-> existsb f l = false.
Proof.
  induction l as [|a l IH]; simpl; [tauto|].
  destruct (f a); simpl; [split; discriminate | exact IH].
Qed.

Lemma where_matches_close tpl r :
  where_matches (upd_where (UpdateWhere deleteTuple (exactTupleClause tpl))) r
  = is_live r && has_key tpl r.
Proof.
  unfold where_matches, has_key, is_live. simpl.
  now rewrite !andb_true_r.
Qed.

Lemma run_update_close n tpl rows :
  run_update (UpdateSet (UpdateWhere deleteTuple (exactTupleClause tpl))
                        colDeletedTxn (VInt n)) rows
  = Some (map (close_row n tpl) rows).
Proof.
  induction rows as [|r rows IH]; [reflexivity|].
  cbn [run_update map]. rewrite IH.
  change (upd_where (UpdateSet (UpdateWhere deleteTuple (exactTupleClause tpl)) colDeletedTxn (VInt n)))
    with (upd_where (UpdateWhere deleteTuple (exactTupleClause tpl))).
  rewrite where_matches_close. unfold close_row.
  destruct (is_live r && has_key tpl r); reflexivity.
Qed.

Lemma Exec_close n tpl w :
  Exec (closeCommand n tpl) w =
  let w1 := fst (issue (EvExec (closeCommand n tpl)) w) in
  match script w with
  | Some msg :: _ => (w1, Err (ErrOther msg))
  | _ =>
      match active w with
      | None => (w1, Err ErrTxClosed)
      | Some t =>
          let rows' := map (close_row n tpl) (relation_tuple t) in
          if constraints_hold w rows' then
            (set_active (Some (set_rows rows' t)) w1, Ok (closed_count tpl (relation_tuple t)))
          else (w1, Err (ErrOther "duplicate key value violates unique constraint"))
      end
  end.
Proof.
  unfold Exec, closeCommand. cbv zeta.
  destruct w as [c a ts xs uq sc lg]; unfold issue; cbn [fst snd script active].
  destruct sc as [|[msg|] sc]; cbn [tl]; destruct a as [t|]; try reflexivity.
  all: rewrite run_update_close; unfold constraints_hold, closed_count; cbn [uq_tuple_living];
    destruct (negb uq || unique_live (map (close_row n tpl) (relation_tuple t))); try reflexivity.
  all: do 4 f_equal; apply filter_ext; intro r; apply where_matches_close.
Qed.

Lemma evolves_nil w : evolves [] w w.
Proof. unfold evolves. now rewrite app_nil_r. Qed.

Lemma evolves_trans {e1 e2 w w1 w2} :
  evolves e1 w w1 -> evolves e2 w1 w2 -> evolves (e1 ++ e2) w w2.
Proof.
  intros (L1 & S1 & U1) (L2 & S2 & U2). unfold evolves.
  rewrite L2, L1, S2, S1, U2, U1, app_assoc, length_app, skipn_skipn.
  repeat split; f_equal; lia.
Qed.

Lemma evolves_issue ev w : evolves [ev] w (fst (issue ev w)).
Proof.
  unfold evolves, issue; simpl. destruct (script w); auto.
Qed.

Lemma same_store_refl w : same_store w w.
Proof. repeat split. Qed.

Lemma same_store_trans {w w1 w2} :
  same_store w w1 -> same_store w1 w2 -> same_store w w2.
Proof.
  intros (A & B & C) (A' & B' & C'); repeat split; congruence.
Qed.

Lemma skipn_script_nil (n : nat) (w : World) :
  script w = [] -> skipn n (script w) = [].
Proof. intros ->. now destruct n. Qed.

(** ** The precondition loop *)

Lemma run_select_precondition tpl rows :
  run_select (Limit (SelectWhere queryTupleExists (exactTupleClause tpl)) 1) rows
  = match find (has_key tpl) rows with
    | Some r => [[VInt (id r)]]
    | None => []
    end.
Proof.
  unfold run_select; cbn [sel_where sel_limit sel_columns Limit SelectWhere
    queryTupleExists From psql.Select app].
  induction rows as [|r rows IH]; [reflexivity|].
  cbn [filter find]. unfold where_matches at 1; cbn [forallb].
  rewrite andb_true_r. fold (has_key tpl r).
  destruct (has_key tpl r); [reflexivity | exact IH].
Qed.

Lemma find_none_existsb {A} (f : A -> bool) l :
  find f l = None <-> existsb f l = false.
Proof.
  induction l as [|a l IH]; simpl; [tauto|].
  destruct (f a); simpl; [split; discriminate | exact IH].
Qed.

Lemma checkPrecondition_eq tpl w :
  checkPrecondition tpl w =
  (fst (issue (EvQueryRow (preconditionQuery tpl)) w),
   match script w with
   | Some msg :: _ => Err (Errorf errUnableToWriteTuples (ErrOther msg))
   | _ =>
       match active w with
       | None => Err (Errorf errUnableToWriteTuples ErrTxClosed)
       | Some t =>
           if existsb (has_key tpl) (relation_tuple t) then Ok tt
           else Err (NewPreconditionFailedErr tpl)
       end
   end).
Proof.
  unfold checkPrecondition, bind, wrap, mapErr, lift, ret, QueryRowScan.
  cbn [SelectToSql Limit SelectWhere queryTupleExists From psql.Select sel_columns sel_from].
  fold (preconditionQuery tpl).
  destruct w as [c a ts xs uq sc lg]; unfold issue; cbn [fst snd script active].
  destruct sc as [|[msg|] sc]; cbn [tl]; destruct a as [t|]; try reflexivity.
  all: cbn [active]; rewrite run_select_precondition;
    destruct (find (has_key tpl) (relation_tuple t)) eqn:F.
  all: try (apply find_none_existsb in F; rewrite F; reflexivity).
  all: assert (E : existsb (has_key tpl) (relation_tuple t) = true)
         by (destruct (existsb (has_key tpl) (relation_tuple t)) eqn:X; auto;
             apply find_none_existsb in X; congruence);
       rewrite E; reflexivity.
Qed.

Lemma checkPreconditions_run pre : forall w w' r,
  checkPreconditions pre w = (w', r) ->
  exists checked,
    is_prefix checked pre
    /\ evolves (map (fun tpl => EvQueryRow (preconditionQuery tpl)) checked) w w'
    /\ same_store w w' /\ active w' = active w
    /\ match r with
       | Ok _ =>
           checked = pre
           /\ forall t, active w = Some t ->
                Forall (fun tpl => existsb (has_key tpl) (relation_tuple t) = true) pre
       | Err e =>
           (exists tpl t, e = NewPreconditionFailedErr tpl /\ In tpl pre
                          /\ active w = Some t
                          /\ existsb (has_key tpl) (relation_tuple t) = false)
           \/ (exists c, e = Errorf errUnableToWriteTuples c /\ c <> ErrNoRows)
       end.
Proof.
  induction pre as [|tpl pre IH]; intros w w' r H.
  - inversion H; subst. exists []. split; [now exists []|].
    split; [apply evolves_nil|]. repeat split; auto.
  - cbn [checkPreconditions] in H. unfold bind in H.
    rewrite checkPrecondition_eq in H.
    set (w1 := fst (issue (EvQueryRow (preconditionQuery tpl)) w)) in *.
    assert (E1 : evolves [EvQueryRow (preconditionQuery tpl)] w w1) by apply evolves_issue.
    assert (S1 : same_store w w1) by (repeat split).
    assert (A1 : active w1 = active w) by reflexivity.
    assert (Stop : forall e, (w', r) = (w1, Err e) ->
              ((exists tpl0 t, e = NewPreconditionFailedErr tpl0 /\ In tpl0 (tpl :: pre)
                          /\ active w = Some t
                          /\ existsb (has_key tpl0) (relation_tuple t) = false)
               \/ (exists c, e = Errorf errUnableToWriteTuples c /\ c <> ErrNoRows)) ->
              exists checked,
                is_prefix checked (tpl :: pre)
                /\ evolves (map (fun tpl => EvQueryRow (preconditionQuery tpl)) checked) w w'
                /\ same_store w w' /\ active w' = active w
                /\ match r with
                   | Ok _ => checked = tpl :: pre
                       /\ forall t, active w = Some t ->
                            Forall (fun tpl => existsb (has_key tpl) (relation_tuple t) = true) (tpl :: pre)
                   | Err e =>
                       (exists tpl0 t, e = NewPreconditionFailedErr tpl0 /\ In tpl0 (tpl :: pre)
                          /\ active w = Some t
                          /\ existsb (has_key tpl0) (relation_tuple t) = false)
                       \/ (exists c, e = Errorf errUnableToWriteTuples c /\ c <> ErrNoRows)
                   end).
    { intros e Eq D. inversion Eq; subst. exists [tpl].
      split; [now exists pre|]. auto. }
    destruct (script w) as [|[msg|] sc] eqn:Sc.
    1,3: destruct (active w) as [t|] eqn:Act;
         [destruct (existsb (has_key tpl) (relation_tuple t)) eqn:Ex|].
    all: try (symmetry in H; eapply Stop; [exact H|];
              first [ right; eexists; split; [reflexivity|discriminate]
                    | left; exists tpl, t; repeat split; simpl; auto ]).
    all: apply IH in H; destruct H as (checked & (rest & P) & Ev & St & Ac & R);
         exists (tpl :: checked); split; [exists rest; simpl; now rewrite P|];
         split; [exact (evolves_trans E1 Ev)|];
         split; [exact (same_store_trans S1 St)|];
         split; [congruence|].
    all: destruct r as [u|e];
         [ destruct R as [R1 R2]; split; [now rewrite R1|];
           intros t' Ht'; inversion Ht'; subst t';
           constructor; [exact Ex | apply R2; congruence]
         | destruct R as [(tpl0 & t0 & -> & I & A0 & X)|(c & -> & NC)];
           [left; exists tpl0, t0; repeat split; simpl; auto; congruence
           |right; exists c; auto] ].
Qed.

Lemma set_rows_id t : set_rows (relation_tuple t) t = t.
Proof. now destruct t. Qed.

Lemma processUpdate_eq n mutation acc w :
  processUpdate n mutation acc w =
  if isTouchOrDelete mutation then
    match Exec (closeCommand n (Tuple mutation)) w with
    | (w1, Ok _) => (w1, Ok (stage n acc mutation))
    | (w1, Err c) => (w1, Err (Errorf errUnableToWriteTuples c))
    end
  else (w, Ok (stage n acc mutation)).
Proof.
  unfold processUpdate, stage, bind, wrap, mapErr, lift, ret.
  destruct (isTouchOrDelete mutation).
  - cbn [UpdateToSql UpdateSet upd_set UpdateWhere deleteTuple psql.Update app].
    fold (closeCommand n (Tuple mutation)).
    destruct (Exec (closeCommand n (Tuple mutation)) w) as [w1 [z|c]];
      destruct (isTouchOrCreate mutation); reflexivity.
  - destruct (isTouchOrCreate mutation); reflexivity.
Qed.

Lemma Exec_close_run n tpl w w' r :
  Exec (closeCommand n tpl) w = (w', r) ->
  evolves [EvExec (closeCommand n tpl)] w w' /\ same_store w w'
  /\ match r with
     | Ok _ =>
         exists t, active w = Some t
           /\ active w' = Some (set_rows (map (close_row n tpl) (relation_tuple t)) t)
           /\ constraints_hold w (map (close_row n tpl) (relation_tuple t)) = true
     | Err c => c <> ErrNoRows
     end.
Proof.
  rewrite Exec_close. cbv zeta.
  pose proof (evolves_issue (EvExec (closeCommand n tpl)) w) as E.
  destruct (script w) as [|[msg|] sc]; [| |];
    (destruct (active w) as [t|] eqn:A;
     [destruct (constraints_hold w (map (close_row n tpl) (relation_tuple t))) eqn:C|]);
    intros H; inversion H; subst; clear H;
    (split; [exact E|]); (split; [repeat split|]);
    try discriminate; try (exists t; auto).
Qed.

Lemma processUpdates_run n muts : forall acc w w' r,
  processUpdates n muts acc w = (w', r) ->
  exists done,
    is_prefix done (closes muts)
    /\ evolves (map (fun k => EvExec (closeCommand n k)) done) w w'
    /\ same_store w w'
    /\ match r with
       | Ok acc' =>
           done = closes muts
           /\ acc' = fold_left (stage n) muts acc
           /\ active w' =
              option_map (fun t => set_rows (apply_closes n (closes muts) (relation_tuple t)) t)
                         (active w)
       | Err e => exists c, e = Errorf errUnableToWriteTuples c /\ c <> ErrNoRows
       end.
Proof.
  induction muts as [|m muts IH]; intros acc w w' r H.
  - inversion H; subst. exists []. split; [now exists []|].
    split; [apply evolves_nil|]. split; [apply same_store_refl|].
    repeat split. destruct (active w') as [t|]; simpl; [now rewrite set_rows_id|reflexivity].
  - cbn [processUpdates] in H. unfold bind in H. rewrite processUpdate_eq in H.
    unfold closes; cbn [filter].
    destruct (isTouchOrDelete m) eqn:TD.
    + destruct (Exec (closeCommand n (Tuple m)) w) as [w1 [z|c]] eqn:X;
        apply Exec_close_run in X; destruct X as (E1 & S1 & R1).
      * apply IH in H. destruct H as (done & (rest & P) & Ev & St & R).
        exists (Tuple m :: done). cbn [map].
        split; [exists rest; fold (closes muts); rewrite P; reflexivity|].
        split; [exact (evolves_trans E1 Ev)|].
        split; [exact (same_store_trans S1 St)|].
        destruct r as [acc'|e]; [|exact R].
        destruct R as (-> & -> & A). repeat split.
        destruct R1 as (t & At & At' & _). rewrite A, At, At'. reflexivity.
      * inversion H; subst. exists [Tuple m]. cbn [map].
        split; [now exists (map Tuple (filter isTouchOrDelete muts))|].
        split; [exact E1|]. split; [exact S1|]. now exists c.
    + apply IH in H. destruct H as (done & P & Ev & St & R).
      exists done. repeat (split; [assumption|]).
      destruct r as [acc'|e]; [|exact R]. exact R.
Qed.

Lemma stage_fold n muts : forall acc,
  fold_left (stage n) muts acc =
  ({| ins_into := ins_into (fst acc); ins_columns := ins_columns (fst acc);
      ins_values := ins_values (fst acc) ++ map (fun k => tupleValues k n) (staged muts) |},
   snd acc || existsb isTouchOrCreate muts).
Proof.
  induction muts as [|m muts IH]; intros [[i c v] b].
  - simpl. rewrite app_nil_r, orb_false_r. reflexivity.
  - cbn [fold_left]. rewrite IH. unfold stage, staged. cbn [filter existsb].
    destruct (isTouchOrCreate m);
      cbn [fst snd Values ins_into ins_columns ins_values map orb].
    + rewrite <- app_assoc, orb_true_r. reflexivity.
    + reflexivity.
Qed.

Lemma stage_fold_writeTuple n muts :
  fold_left (stage n) muts (writeTuple, false)
  = (bulkWriteOf n muts, existsb isTouchOrCreate muts).
Proof. now rewrite stage_fold. Qed.

Lemma existsb_staged muts :
  existsb isTouchOrCreate muts = negb (Nat.eqb (List.length (staged muts)) 0).
Proof.
  unfold staged. induction muts as [|m muts IH]; [reflexivity|].
  cbn [existsb filter]. destruct (isTouchOrCreate m); [reflexivity | exact IH].
Qed.

Lemma run_insert_staged n ks : forall lastid,
  run_insert lastid (ins_columns writeTuple) (map (fun k => tupleValues k n) ks)
  = Some (new_rows lastid n ks).
Proof.
  induction ks as [|k ks IH]; intros lastid; [reflexivity|].
  cbn [map run_insert new_rows]. rewrite IH. reflexivity.
Qed.

Lemma new_rows_length lastid n ks :
  List.length (new_rows lastid n ks) = List.length ks.
Proof.
  revert lastid; induction ks as [|k ks IH]; intros; simpl; [reflexivity|now rewrite IH].
Qed.

Lemma executeBulkWrite_run n muts w w' r :
  executeBulkWrite (bulkWriteOf n muts, existsb isTouchOrCreate muts) w = (w', r) ->
  evolves (if existsb isTouchOrCreate muts
           then [EvExec (InsertSql (bulkWriteOf n muts))] else []) w w'
  /\ committed w' = committed w /\ txn_id_seq w' = txn_id_seq w
  /\ match r with
     | Ok _ =>
         tuple_id_seq w' = tuple_id_seq w + Z.of_nat (List.length (staged muts))
         /\ active w' =
            option_map (fun t => set_rows (relation_tuple t
                                           ++ new_rows (tuple_id_seq w) n (staged muts)) t)
                       (active w)
         /\ (existsb isTouchOrCreate muts = true ->
             exists t, active w = Some t
               /\ constraints_hold w (relation_tuple t
                                      ++ new_rows (tuple_id_seq w) n (staged muts)) = true)
     | Err e => exists c, e = Errorf errUnableToWriteTuples c /\ c <> ErrNoRows
     end.
Proof.
  unfold executeBulkWrite. cbn [fst snd].
  pose proof (existsb_staged muts) as ES.
  destruct (existsb isTouchOrCreate muts) eqn:X.
  - unfold bind, wrap, mapErr, lift, ret, InsertToSql.
    assert (NV : ins_values (bulkWriteOf n muts) <> []).
    { cbn [bulkWriteOf ins_values]. destruct (staged muts); [discriminate ES|discriminate]. }
    destruct (ins_values (bulkWriteOf n muts)) as [|v vs] eqn:V; [congruence|]. clear NV.
    unfold Exec.
    pose proof (evolves_issue (EvExec (InsertSql (bulkWriteOf n muts))) w) as E.
    destruct (issue (EvExec (InsertSql (bulkWriteOf n muts))) w) as [w1 f] eqn:I.
    assert (W1 : w1 = fst (issue (EvExec (InsertSql (bulkWriteOf n muts))) w)) by now rewrite I.
    assert (F1 : committed w1 = committed w /\ txn_id_seq w1 = txn_id_seq w
                 /\ tuple_id_seq w1 = tuple_id_seq w /\ active w1 = active w
                 /\ uq_tuple_living w1 = uq_tuple_living w) by (subst w1; repeat split).
    destruct F1 as (F1 & F2 & F3 & F4 & F5).
    cbn [fst] in E. clear I W1.
    destruct f as [msg|].
    { intros H; inversion H; subst. split; [exact E|]. do 2 (split; [assumption|]).
      eexists; split; [reflexivity|discriminate]. }
    destruct (active w1) as [t|] eqn:A.
    2:{ intros H; inversion H; subst. split; [exact E|]. do 2 (split; [assumption|]).
        eexists; split; [reflexivity|discriminate]. }
    cbn [bulkWriteOf ins_columns ins_values].
    change [colNamespace; colObjectID; colRelation; colUsersetNamespace;
            colUsersetObjectID; colUsersetRelation; colCreatedTxn]
      with (ins_columns writeTuple).
    rewrite run_insert_staged, new_rows_length.
    unfold constraints_hold. cbn [set_tuple_id_seq uq_tuple_living].
    rewrite F3, F5.
    destruct (negb (uq_tuple_living w)
              || unique_live (relation_tuple t ++ new_rows (tuple_id_seq w) n (staged muts))) eqn:C.
    + intros H; inversion H; subst. split; [exact E|].
      split; [exact F1|]. split; [exact F2|]. split; [reflexivity|].
      split; [rewrite <- F4; reflexivity|].
      intros _. exists t. split; [congruence|exact C].
    + intros H; inversion H; subst. split; [exact E|].
      split; [exact F1|]. split; [exact F2|].
      eexists; split; [reflexivity|discriminate].
  - intros H; inversion H; subst.
    assert (S0 : staged muts = []) by (destruct (staged muts); [reflexivity|discriminate ES]).
    rewrite S0. split; [apply evolves_nil|]. repeat split.
    + simpl. lia.
    + destruct (active w') as [t|]; simpl; [|reflexivity].
      now rewrite app_nil_r, set_rows_id.
    + discriminate.
Qed.

(** ** Begin, allocation, commit, rollback *)

Lemma Begin_run w w' r :
  Begin w = (w', r) ->
  evolves [EvBegin] w w' /\ same_store w w'
  /\ match r with
     | Ok _ => active w' = Some (committed w)
     | Err c => (exists msg, c = ErrOther msg) /\ active w' = active w
     end.
Proof.
  unfold Begin. pose proof (evolves_issue EvBegin w) as E.
  unfold issue in *. cbn [fst] in E.
  destruct (script w) as [|[msg|] sc]; intros H; inversion H; subst; clear H;
    (split; [exact E|]); (split; [repeat split|]); try reflexivity.
  split; [now exists msg | reflexivity].
Qed.

Lemma createNewTransaction_run w w' r :
  createNewTransaction w = (w', r) ->
  evolves [EvCreateTxn] w w'
  /\ committed w' = committed w /\ tuple_id_seq w' = tuple_id_seq w
  /\ match r with
     | Ok n =>
         n = txn_id_seq w + 1 /\ n < liveDeletedTxnID /\ txn_id_seq w' = n
         /\ exists t, active w = Some t
              /\ active w' = Some {| relation_tuple := relation_tuple t;
                                     relation_tuple_transaction :=
                                       relation_tuple_transaction t ++ [n] |}
     | Err c => c <> ErrNoRows /\ txn_id_seq w' = txn_id_seq w /\ active w' = active w
     end.
Proof.
  unfold createNewTransaction. pose proof (evolves_issue EvCreateTxn w) as E.
  unfold issue in *. cbn [fst] in E. cbn [active txn_id_seq].
  destruct (script w) as [|[msg|] sc];
    (destruct (active w) as [t|] eqn:A;
     [destruct (txn_id_seq w + 1 <? liveDeletedTxnID) eqn:L|]);
    intros H; inversion H; subst; clear H;
    (split; [exact E|]); (split; [reflexivity|]); (split; [reflexivity|]);
    try (split; [discriminate|split; [reflexivity|cbn [active]; congruence]]).
  all: apply Z.ltb_lt in L; repeat split; auto; exists t; split; reflexivity.
Qed.

Lemma Commit_run w w' r :
  Commit w = (w', r) ->
  evolves [EvCommit] w w'
  /\ tuple_id_seq w' = tuple_id_seq w /\ txn_id_seq w' = txn_id_seq w
  /\ match r with
     | Ok _ => exists t, active w = Some t /\ committed w' = t /\ active w' = None
     | Err c => c <> ErrNoRows /\ committed w' = committed w
     end.
Proof.
  unfold Commit. pose proof (evolves_issue EvCommit w) as E.
  unfold issue in *. cbn [fst] in E. cbn [active].
  destruct (script w) as [|[msg|] sc]; (destruct (active w) as [t|] eqn:A);
    intros H; inversion H; subst; clear H;
    (split; [exact E|]); (split; [reflexivity|]); (split; [reflexivity|]);
    try (split; [discriminate|reflexivity]).
  all: exists t; repeat split.
Qed.

Lemma Rollback_run w :
  evolves [EvRollback] w (fst (Rollback w))
  /\ same_store w (fst (Rollback w))
  /\ active (fst (Rollback w)) = None.
Proof.
  unfold Rollback. pose proof (evolves_issue EvRollback w) as E.
  unfold issue in *. cbn [fst] in E. cbn [active].
  destruct (script w) as [|[msg|] sc]; try (destruct (active w) as [t|] eqn:A);
    cbn [fst]; (split; [exact E|]); (split; [repeat split|]); auto.
Qed.

(** ** Initial segments *)

Lemma is_prefix_refl {A} (l : list A) : is_prefix l l.
Proof. exists []. now rewrite app_nil_r. Qed.

Lemma is_prefix_nil {A} (l : list A) : is_prefix [] l.
Proof. now exists l. Qed.

Lemma is_prefix_app {A} (a l1 l2 : list A) :
  is_prefix l1 l2 -> is_prefix (a ++ l1) (a ++ l2).
Proof. intros [rest ->]. exists rest. now rewrite app_assoc. Qed.

Lemma is_prefix_cons {A} (x : A) (l1 l2 : list A) :
  is_prefix l1 l2 -> is_prefix (x :: l1) (x :: l2).
Proof. intros [rest ->]. now exists rest. Qed.

Lemma is_prefix_app_r {A} (l1 l2 r : list A) :
  is_prefix l1 l2 -> is_prefix l1 (l2 ++ r).
Proof. intros [rest ->]. exists (rest ++ r). now rewrite app_assoc. Qed.

Lemma is_prefix_map {A B} (f : A -> B) (l1 l2 : list A) :
  is_prefix l1 l2 -> is_prefix (map f l1) (map f l2).
Proof. intros [rest ->]. exists (map f rest). now rewrite map_app. Qed.

Lemma constraints_hold_uq w w' rows :
  uq_tuple_living w' = uq_tuple_living w ->
  constraints_hold w' rows = constraints_hold w rows.
Proof. unfold constraints_hold. now intros ->. Qed.

Ltac prefix_solve :=
  unfold plannedInTransaction, plannedQueries, plannedExecs;
  repeat rewrite map_app; repeat rewrite map_map;
  repeat rewrite <- app_assoc; cbn [app map];
  repeat first
    [ apply is_prefix_refl
    | apply is_prefix_nil
    | apply is_prefix_cons
    | apply is_prefix_app
    | apply is_prefix_app_r; apply is_prefix_map; assumption
    | apply is_prefix_app_r; apply is_prefix_refl ].

Lemma writeInTransaction_run pre muts w w' r t0 n :
  active w = Some t0 ->
  writeInTransaction pre muts w = (w', r) ->
  n = txn_id_seq w + 1 ->
  exists calls,
    is_prefix calls (plannedInTransaction n pre muts)
    /\ evolves calls w w'
    /\ txn_id_seq w <= txn_id_seq w'
    /\ match r with
       | Ok rev =>
           calls = plannedInTransaction n pre muts
           /\ rev = revisionFromTransaction n
           /\ n < liveDeletedTxnID
           /\ txn_id_seq w' = n
           /\ tuple_id_seq w' = tuple_id_seq w + Z.of_nat (List.length (staged muts))
           /\ active w' = None
           /\ committed w' =
              {| relation_tuple :=
                   closedAndInserted n muts (tuple_id_seq w) (relation_tuple t0);
                 relation_tuple_transaction := relation_tuple_transaction t0 ++ [n] |}
           /\ Forall (fun tpl => existsb (has_key tpl) (relation_tuple t0) = true) pre
           /\ (existsb isTouchOrCreate muts = true ->
               constraints_hold w
                 (closedAndInserted n muts (tuple_id_seq w) (relation_tuple t0)) = true)
       | Err e =>
           committed w' = committed w
           /\ ((exists tpl checked,
                  e = NewPreconditionFailedErr tpl /\ In tpl pre
                  /\ existsb (has_key tpl) (relation_tuple t0) = false
                  /\ is_prefix checked pre /\ calls = plannedQueries checked
                  /\ same_store w w')
               \/ (exists c, e = Errorf errUnableToWriteTuples c /\ c <> ErrNoRows))
       end.
Proof.
  intros A0 H Hn0. unfold writeInTransaction, bind in H.
  destruct (checkPreconditions pre w) as [w1 [u|e]] eqn:P;
    apply checkPreconditions_run in P;
    destruct P as (checked & Pre & E1 & (S1c & S1t & S1x) & A1 & R1).
  2:{ inversion H; subst w' r. exists (plannedQueries checked).
      split; [prefix_solve|]. split; [exact E1|]. split; [lia|].
      split; [exact S1c|].
      destruct R1 as [(tpl & t & -> & I & At & X)|R1]; [left|right; exact R1].
      exists tpl, checked. rewrite A0 in At. inversion At; subst t.
      repeat split; auto. }
  destruct R1 as (-> & F1). specialize (F1 _ A0).
  unfold wrap, mapErr in H.
  destruct (createNewTransaction w1) as [w2 [n'|c]] eqn:C;
    apply createNewTransaction_run in C;
    destruct C as (E2 & S2c & S2t & R2).
  2:{ inversion H; subst w' r. destruct R2 as (NC & X2 & A2).
      exists (plannedQueries pre ++ [EvCreateTxn]).
      split; [prefix_solve|]. split; [exact (evolves_trans E1 E2)|].
      split; [lia|]. split; [congruence|]. right. now exists c. }
  destruct R2 as (Hn & Lt & X2 & t1 & At1 & A2).
  assert (Hn' : n' = n) by lia. clear Hn. revert X2. subst n'. intros X2.
  rewrite A1, A0 in At1. inversion At1; subst t1. clear At1.
  destruct (processUpdates n muts (writeTuple, false) w2) as [w3 [acc|e]] eqn:U;
    apply processUpdates_run in U;
    destruct U as (done & Pd & E3 & (S3c & S3t & S3x) & R3).
  2:{ inversion H; subst w' r.
      exists ((plannedQueries pre ++ [EvCreateTxn])
              ++ map (fun k => EvExec (closeCommand n k)) done).
      split; [prefix_solve|].
      split; [exact (evolves_trans (evolves_trans E1 E2) E3)|].
      split; [lia|]. split; [congruence|]. right. exact R3. }
  destruct R3 as (-> & -> & A3). rewrite stage_fold_writeTuple in H.
  destruct (executeBulkWrite (bulkWriteOf n muts, existsb isTouchOrCreate muts) w3)
    as [w4 [u4|e]] eqn:B;
    apply executeBulkWrite_run in B;
    destruct B as (E4 & S4c & S4x & R4).
  2:{ inversion H; subst w' r.
      exists (((plannedQueries pre ++ [EvCreateTxn])
               ++ map (fun k => EvExec (closeCommand n k)) (closes muts))
              ++ (if existsb isTouchOrCreate muts
                  then [EvExec (InsertSql (bulkWriteOf n muts))] else [])).
      split; [unfold plannedInTransaction, plannedExecs; destruct (existsb isTouchOrCreate muts); prefix_solve|].
      split; [exact (evolves_trans (evolves_trans (evolves_trans E1 E2) E3) E4)|].
      split; [lia|]. split; [congruence|]. right. exact R4. }
  destruct R4 as (S4t & A4 & C4).
  destruct (Commit w4) as [w5 [u5|c]] eqn:Cm;
    apply Commit_run in Cm;
    destruct Cm as (E5 & S5t & S5x & R5);
    inversion H; subst w' r; clear H;
    exists ((((plannedQueries pre ++ [EvCreateTxn])
               ++ map (fun k => EvExec (closeCommand n k)) (closes muts))
              ++ (if existsb isTouchOrCreate muts
                  then [EvExec (InsertSql (bulkWriteOf n muts))] else []))
            ++ [EvCommit]);
    (split; [unfold plannedInTransaction, plannedExecs; destruct (existsb isTouchOrCreate muts); prefix_solve|]);
    (split; [exact (evolves_trans (evolves_trans (evolves_trans (evolves_trans E1 E2) E3) E4) E5)|]);
    (split; [lia|]).
  2:{ destruct R5 as (NC & Cc). split; [congruence|]. right. now exists c. }
  destruct R5 as (t & At & Ct & An).
  rewrite A4, A3, A2 in At. cbn [option_map] in At.
  injection At as At. rewrite <- At in Ct. clear At t.
  split.
  { unfold plannedInTransaction, plannedExecs.
    repeat rewrite map_app; repeat rewrite map_map; repeat rewrite <- app_assoc.
    destruct (existsb isTouchOrCreate muts); reflexivity. }
  split; [reflexivity|]. split; [exact Lt|]. split; [lia|]. split; [lia|].
  split; [exact An|].
  assert (T3 : tuple_id_seq w3 = tuple_id_seq w) by congruence.
  split.
  { rewrite Ct. unfold closedAndInserted, set_rows. cbn. now rewrite T3. }
  split; [exact F1|].
  intros X. destruct (C4 X) as (t & At & Ch).
  rewrite A3, A2 in At. cbn [option_map] in At.
  injection At as At. rewrite <- At in Ch. clear At t.
  cbn [set_rows relation_tuple] in Ch. rewrite T3 in Ch.
  unfold closedAndInserted. rewrite <- Ch. symmetry.
  apply constraints_hold_uq.
  destruct E1 as (_ & _ & U1), E2 as (_ & _ & U2), E3 as (_ & _ & U3). congruence.
Qed.

Lemma WriteTuples_run pre muts w w' r n :
  WriteTuples pre muts w = (w', r) ->
  n = txn_id_seq w + 1 ->
  uq_tuple_living w' = uq_tuple_living w
  /\ txn_id_seq w <= txn_id_seq w'
  /\ ((evolves [EvBegin] w w' /\ same_store w w' /\ active w' = active w
       /\ exists msg, r = Err (Errorf errUnableToWriteTuples (ErrOther msg)))
      \/ exists calls,
           is_prefix calls (plannedInTransaction n pre muts)
           /\ evolves (EvBegin :: calls ++ [EvRollback]) w w'
           /\ active w' = None
           /\ in_transaction_outcome n pre muts w w' r calls).
Proof.
  intros H Hn. unfold WriteTuples, bind, wrap, mapErr, defer in H.
  destruct (Begin w) as [w1 [u|c]] eqn:B; apply Begin_run in B;
    destruct B as (E1 & (S1c & S1t & S1x) & R1).
  2:{ inversion H; subst w' r. destruct R1 as ((msg & ->) & A1).
      split; [apply E1|]. split; [lia|]. left.
      split; [exact E1|]. split; [repeat split; assumption|]. split; [exact A1|].
      now exists msg. }
  destruct (writeInTransaction pre muts w1) as [w2 r2] eqn:T.
  inversion H; subst w' r; clear H.
  rewrite <- S1c in R1.
  pose proof (writeInTransaction_run pre muts w1 w2 r2 (committed w1) n R1 T
                ltac:(lia)) as T'.
  destruct T' as (calls & P & E2 & Mx & R).
  destruct (Rollback_run w2) as (E3 & (S3c & S3t & S3x) & A3).
  pose proof (evolves_trans (evolves_trans E1 E2) E3) as E. cbn [app] in E.
  split; [apply E|]. split; [lia|]. right.
  exists calls. split; [exact P|]. split; [exact E|]. split; [exact A3|].
  unfold in_transaction_outcome.
  destruct r2 as [rev|e].
  - destruct R as (-> & -> & Lt & X & Tq & An & Cm & F & Ch).
    rewrite <- S1c, <- S1t.
    repeat (split; [first [reflexivity | assumption | congruence]|]).
    intros Xs. rewrite <- (Ch Xs). symmetry. apply constraints_hold_uq. apply E1.
  - destruct R as (Cm & R). split; [congruence|].
    destruct R as [(tpl & checked & -> & I & X & Pc & -> & (Sc & St & Sx))|R]; [left|right; exact R].
    exists tpl, checked. rewrite <- S1c.
    repeat (split; [first [reflexivity | assumption | congruence]|]).
    repeat split; congruence.
Qed.

Lemma is_live_set_deleted n r :
  n <> liveDeletedTxnID -> is_live (set_deleted n r) = false.
Proof. intros N. unfold is_live; simpl. now apply Z.eqb_neq. Qed.

Lemma close_any_cons n k ks r :
  n <> liveDeletedTxnID ->
  close_any n ks (close_row n k r) = close_any n (k :: ks) r.
Proof.
  intros N. unfold close_any, close_row. cbn [existsb].
  destruct (is_live r) eqn:L; cbn [andb].
  - destruct (has_key k r) eqn:K; cbn [orb].
    + rewrite is_live_set_deleted by exact N. reflexivity.
    + rewrite L. reflexivity.
  - rewrite L. reflexivity.
Qed.

Lemma apply_closes_map n ks : forall rows,
  n <> liveDeletedTxnID ->
  apply_closes n ks rows = map (close_any n ks) rows.
Proof.
  induction ks as [|k ks IH]; intros rows N.
  - unfold apply_closes, close_any; cbn [fold_left existsb].
    induction rows as [|r rows IHr]; [reflexivity|].
    cbn [map]. rewrite andb_false_r. now rewrite <- IHr.
  - unfold apply_closes in *. cbn [fold_left]. rewrite IH by exact N.
    rewrite map_map. apply map_ext. intro r. now apply close_any_cons.
Qed.

Lemma close_any_live n ks r :
  n <> liveDeletedTxnID ->
  is_live (close_any n ks r) = true -> close_any n ks r = r.
Proof.
  intros N. unfold close_any.
  destruct (is_live r && existsb (fun k => has_key k r) ks); [|reflexivity].
  rewrite is_live_set_deleted by exact N. discriminate.
Qed.

Lemma close_row_live n k r :
  n <> liveDeletedTxnID ->
  is_live (close_row n k r) = true -> close_row n k r = r.
Proof.
  intros N. unfold close_row.
  destruct (is_live r && has_key k r); [|reflexivity].
  rewrite is_live_set_deleted by exact N. discriminate.
Qed.

(** ** The uniqueness constraint *)

Lemma unique_live_map (g : Row -> Row) rows :
  (forall r, is_live (g r) = true -> g r = r) ->
  unique_live rows = true -> unique_live (map g rows) = true.
Proof.
  intros G. induction rows as [|r rows IH]; [reflexivity|].
  cbn [unique_live map]. intros H. apply andb_true_iff in H. destruct H as [H1 H2].
  apply andb_true_iff. split; [|now apply IH].
  apply negb_true_iff. apply negb_true_iff in H1.
  destruct (is_live (g r)) eqn:L; [|reflexivity]. cbn [andb].
  pose proof (G r L) as Gr. rewrite Gr in L |- *. rewrite L in H1. cbn [andb] in H1.
  destruct (existsb (fun r' => is_live r' && same_key r r') (map g rows)) eqn:X; [|reflexivity].
  apply existsb_exists in X. destruct X as (x & I & P).
  apply in_map_iff in I. destruct I as (r' & <- & I').
  apply andb_true_iff in P. destruct P as [P1 P2].
  pose proof (G r' P1) as Gr'. rewrite Gr' in P1, P2.
  assert (existsb (fun r' => is_live r' && same_key r r') rows = true).
  { apply existsb_exists. exists r'. split; [exact I'|]. now rewrite P1, P2. }
  congruence.
Qed.

Lemma same_key_of_has_key k a b :
  has_key k a = true -> has_key k b = true -> same_key a b = true.
Proof.
  unfold has_key, eq_matches, exactTupleClause, same_key. cbn.
  rewrite !andb_true_r, !andb_true_iff, !String.eqb_eq.
  intros (A1 & A2 & A3 & A4 & A5 & A6) (B1 & B2 & B3 & B4 & B5 & B6).
  repeat split; congruence.
Qed.

Lemma unique_live_at_most_one k rows :
  unique_live rows = true ->
  (List.length (filter (live_with_key k) rows) <= 1)%nat.
Proof.
  induction rows as [|r rows IH]; [simpl; lia|].
  cbn [unique_live filter]. intros H. apply andb_true_iff in H. destruct H as [H1 H2].
  specialize (IH H2). destruct (live_with_key k r) eqn:LK; [|exact IH].
  unfold live_with_key in LK. apply andb_true_iff in LK. destruct LK as [L K].
  rewrite L in H1. cbn [andb] in H1. apply negb_true_iff in H1.
  assert (E : filter (live_with_key k) rows = []).
  { apply filter_nil_existsb.
    destruct (existsb (live_with_key k) rows) eqn:X; [|reflexivity].
    apply existsb_exists in X. destruct X as (x & I & P).
    unfold live_with_key in P. apply andb_true_iff in P. destruct P as [P1 P2].
    assert (existsb (fun r' => is_live r' && same_key r r') rows = true).
    { apply existsb_exists. exists x. split; [exact I|].
      rewrite P1. cbn [andb]. exact (same_key_of_has_key k r x K P2). }
    congruence. }
  rewrite E. simpl. lia.
Qed.

Lemma unique_live_app_disjoint l1 l2 a b :
  unique_live (l1 ++ l2) = true ->
  In a l1 -> In b l2 -> is_live a = true -> is_live b = true ->
  same_key a b = true -> False.
Proof.
  induction l1 as [|x l1 IH]; intros U Ia Ib La Lb S; [contradiction|].
  cbn [app unique_live] in U. apply andb_true_iff in U. destruct U as [U1 U2].
  destruct Ia as [->|Ia]; [|exact (IH U2 Ia Ib La Lb S)].
  rewrite La in U1. cbn [andb] in U1. apply negb_true_iff in U1.
  assert (existsb (fun r' => is_live r' && same_key a r') (l1 ++ l2) = true).
  { apply existsb_exists. exists b. split; [apply in_or_app; now right|].
    now rewrite Lb, S. }
  congruence.
Qed.

Lemma filter_length_pos {A} (f : A -> bool) l x :
  In x l -> f x = true -> (1 <= List.length (filter f l))%nat.
Proof.
  intros I F. assert (In x (filter f l)) by (apply filter_In; auto).
  destruct (filter f l); [contradiction|simpl; lia].
Qed.

(** ** The inserted rows *)

Lemma new_rows_In n k ks : forall lastid,
  In k ks -> exists i, In (tuple_row i n k) (new_rows lastid n ks).
Proof.
  induction ks as [|k' ks IH]; intros lastid I; [contradiction|].
  cbn [new_rows]. destruct I as [->|I].
  - exists (lastid + 1). now left.
  - destruct (IH (lastid + 1) I) as (i & Hi). exists i. now right.
Qed.

Lemma tuple_row_live i n k : is_live (tuple_row i n k) = true.
Proof. reflexivity. Qed.

Lemma tuple_row_has_key i n k : has_key k (tuple_row i n k) = true.
Proof.
  unfold has_key, eq_matches, exactTupleClause. cbn.
  now rewrite !String.eqb_refl.
Qed.

Lemma In_closes m muts :
  In m muts -> isTouchOrDelete m = true -> In (Tuple m) (closes muts).
Proof.
  intros I T. unfold closes. apply in_map. apply filter_In. auto.
Qed.

Lemma In_staged m muts :
  In m muts -> isTouchOrCreate m = true -> In (Tuple m) (staged muts).
Proof.
  intros I T. unfold staged. apply in_map. apply filter_In. auto.
Qed.

Lemma existsb_isTouchOrCreate m muts :
  In m muts -> isTouchOrCreate m = true -> existsb isTouchOrCreate muts = true.
Proof. intros I T. apply existsb_exists. now exists m. Qed.

Lemma execs_app a b : execs (a ++ b) = execs a ++ execs b.
Proof. apply flat_map_app. Qed.

Lemma execs_queries pre : execs (plannedQueries pre) = [].
Proof. induction pre; [reflexivity|exact IHpre]. Qed.

Lemma execs_map_EvExec l : execs (map EvExec l) = l.
Proof. induction l as [|c l IH]; [reflexivity|]. simpl. now rewrite IH. Qed.

Lemma execs_planned n pre muts :
  execs (plannedInTransaction n pre muts) = plannedExecs n muts.
Proof.
  unfold plannedInTransaction.
  change (EvCreateTxn :: map EvExec (plannedExecs n muts) ++ [EvCommit])
    with ([EvCreateTxn] ++ map EvExec (plannedExecs n muts) ++ [EvCommit]).
  rewrite !execs_app, execs_queries, execs_map_EvExec. simpl. now rewrite app_nil_r.
Qed.

Lemma execs_prefix a b : is_prefix a b -> is_prefix (execs a) (execs b).
Proof. intros [rest ->]. exists (execs rest). apply execs_app. Qed.

Lemma execs_bracket calls : execs (EvBegin :: calls ++ [EvRollback]) = execs calls.
Proof.
  change (EvBegin :: calls ++ [EvRollback]) with ([EvBegin] ++ calls ++ [EvRollback]).
  rewrite !execs_app. simpl. now rewrite app_nil_r.
Qed.

Lemma is_prefix_app_inv {A} (l a b : list A) :
  is_prefix l (a ++ b) ->
  is_prefix l a \/ exists l', l = a ++ l' /\ is_prefix l' b.
Proof.
  revert l. induction a as [|x a IH]; intros l P.
  - right. exists l. split; [reflexivity|exact P].
  - destruct l as [|y l].
    + left. apply is_prefix_nil.
    + destruct P as [rest E]. cbn [app] in E. injection E as -> E.
      destruct (IH l) as [P'|(l' & -> & P')].
      * now exists rest.
      * left. now apply is_prefix_cons.
      * right. exists l'. split; [reflexivity|exact P'].
Qed.

Lemma In_prefix {A} {x : A} {l1 l2} : is_prefix l1 l2 -> In x l1 -> In x l2.
Proof. intros [rest ->] I. apply in_or_app. now left. Qed.

Lemma In_queries ev pre :
  In ev (plannedQueries pre) -> exists tpl, ev = EvQueryRow (preconditionQuery tpl).
Proof.
  unfold plannedQueries. intros I. apply in_map_iff in I.
  destruct I as (tpl & <- & _). now exists tpl.
Qed.

Lemma stamped_planned n muts c : In c (plannedExecs n muts) -> stamped n c.
Proof.
  unfold plannedExecs. intros I. apply in_app_or in I. destruct I as [I|I].
  - apply in_map_iff in I. destruct I as (k & <- & _). reflexivity.
  - destruct (existsb isTouchOrCreate muts); [|contradiction].
    destruct I as [<-|[]]. unfold stamped, bulkWriteOf. cbn [ins_values ins_columns].
    apply Forall_forall. intros vals I. apply in_map_iff in I.
    destruct I as (k & <- & _). reflexivity.
Qed.

(** * The claims *)

(** [PreconditionFailed] is reported for a tuple of the preconditions that
    has no stored row at all: a row that was closed counts as existing. *)
Lemma WriteTuples_precondition_failed_means_no_row pre muts w w' tpl :
  WriteTuples pre muts w = (w', Err (NewPreconditionFailedErr tpl)) ->
  In tpl pre /\ existsb (has_key tpl) (relation_tuple (committed w)) = false.
Proof.
  intros H.
  destruct (WriteTuples_run pre muts w w' _ _ H eq_refl) as (_ & _ & [B|T]).
  - destruct B as (_ & _ & _ & msg & X). discriminate X.
  - destruct T as (calls & _ & _ & _ & _ & O).
    destruct O as [(tpl' & checked & E & I & X & _)|(c & X & _)]; [|discriminate X].
    injection E as ->. now split.
Qed.

(** C2: when a precondition check fails, what readers see is what it was,
    neither sequence moved (no revision was allocated), no transaction is
    left open, and the engine was asked for nothing but [Begin], the
    existence queries of an initial segment of the preconditions and the
    deferred [Rollback], which is the last call issued. *)
Theorem WriteTuples_precondition_failed_no_effect pre muts w w' tpl :
  WriteTuples pre muts w = (w', Err (NewPreconditionFailedErr tpl)) ->
  committed w' = committed w
  /\ txn_id_seq w' = txn_id_seq w
  /\ tuple_id_seq w' = tuple_id_seq w
  /\ active w' = None
  /\ exists checked,
       is_prefix checked pre
       /\ log w' = log w ++ EvBegin :: plannedQueries checked ++ [EvRollback].
Proof.
  intros H.
  destruct (WriteTuples_run pre muts w w' _ _ H eq_refl) as (_ & _ & [B|T]).
  - destruct B as (_ & _ & _ & msg & X). discriminate X.
  - destruct T as (calls & _ & E & A & Cm & O).
    destruct O as [(tpl' & checked & _ & _ & _ & P & -> & (Sc & St & Sx))|(c & X & _)];
      [|discriminate X].
    repeat (split; [assumption|]). exists checked. split; [exact P|apply E].
Qed.

(** C3: the commands executed by a call are an initial segment of: one
    close per TOUCH or DELETE mutation, in the order of the mutations, then
    a single insert holding every staged row when an insertion was staged
    and nothing when none was; a successful call executed all of them. *)
Theorem WriteTuples_closes_then_single_insert pre muts w w' r :
  WriteTuples pre muts w = (w', r) ->
  exists evs,
    log w' = log w ++ evs
    /\ is_prefix (execs evs) (plannedExecs (txn_id_seq w + 1) muts)
    /\ (forall rev, r = Ok rev -> execs evs = plannedExecs (txn_id_seq w + 1) muts).
Proof.
  intros H.
  destruct (WriteTuples_run pre muts w w' _ _ H eq_refl) as (_ & _ & [B|T]).
  - destruct B as (E & _ & _ & msg & ->). exists [EvBegin].
    split; [apply E|]. split; [apply is_prefix_nil|]. discriminate.
  - destruct T as (calls & P & E & _ & O).
    exists (EvBegin :: calls ++ [EvRollback]). split; [apply E|].
    rewrite execs_bracket. split.
    + rewrite <- execs_planned with (pre := pre). now apply execs_prefix.
    + intros rev ->. destruct O as (-> & _). apply execs_planned.
Qed.

(** C5: either the call allocated nothing and executed nothing, and
    failed; or its calls are [Begin], the existence query of every
    precondition, one allocation, and then calls among which there is no
    further allocation and no query, and whose every command is stamped
    with [txn_id_seq w + 1], the identifier that allocation returned.  A
    success is of the second kind, returns that identifier and has
    recorded it, and no other, in the table of transactions. *)
Theorem WriteTuples_allocates_once pre muts w w' r :
  WriteTuples pre muts w = (w', r) ->
  exists evs,
    log w' = log w ++ evs
    /\ ((~ In EvCreateTxn evs /\ (forall c, ~ In (EvExec c) evs) /\ exists e, r = Err e)
        \/ exists tail,
             evs = EvBegin :: plannedQueries pre ++ EvCreateTxn :: tail
             /\ ~ In EvCreateTxn tail
             /\ (forall q, ~ In (EvQueryRow q) tail)
             /\ (forall c, In (EvExec c) tail -> stamped (txn_id_seq w + 1) c)
             /\ (forall rev, r = Ok rev ->
                  rev = revisionFromTransaction (txn_id_seq w + 1)
                  /\ txn_id_seq w' = txn_id_seq w + 1
                  /\ relation_tuple_transaction (committed w')
                     = relation_tuple_transaction (committed w) ++ [txn_id_seq w + 1])).
Proof.
  intros H.
  destruct (WriteTuples_run pre muts w w' _ _ H eq_refl) as (_ & _ & [B|T]).
  - destruct B as (E & _ & _ & msg & ->). exists [EvBegin].
    split; [apply E|]. left. split; [|split].
    + intros [X|[]]; discriminate X.
    + intros c [X|[]]; discriminate X.
    + eexists; reflexivity.
  - destruct T as (calls & P & E & _ & O).
    exists (EvBegin :: calls ++ [EvRollback]). split; [apply E|].
    assert (Left : is_prefix calls (plannedQueries pre) ->
              ~ In EvCreateTxn (EvBegin :: calls ++ [EvRollback])
              /\ (forall c, ~ In (EvExec c) (EvBegin :: calls ++ [EvRollback]))
              /\ exists e, r = Err e).
    { intros Pq.
      assert (Q : forall ev, In ev (EvBegin :: calls ++ [EvRollback]) ->
                    ev = EvBegin \/ ev = EvRollback
                    \/ exists tpl, ev = EvQueryRow (preconditionQuery tpl)).
      { intros ev [<-|I]; [now left|]. apply in_app_or in I. destruct I as [I|[<-|[]]].
        - right; right. apply In_queries with (pre := pre). exact (In_prefix Pq I).
        - right; now left. }
      split; [|split].
      * intros I. destruct (Q _ I) as [X|[X|(tpl & X)]]; discriminate X.
      * intros c I. destruct (Q _ I) as [X|[X|(tpl & X)]]; discriminate X.
      * destruct r as [rev|e]; [|now exists e].
        destruct O as (-> & _). destruct Pq as [rest Pq].
        apply (f_equal (@List.length Event)) in Pq. unfold plannedInTransaction in Pq.
        rewrite !length_app in Pq. cbn [List.length] in Pq. lia. }
    unfold plannedInTransaction in P.
    apply is_prefix_app_inv in P. destruct P as [P|(l' & El & P)]; [left; now apply Left|].
    destruct l' as [|x l'].
    { left. apply Left. rewrite El, app_nil_r. apply is_prefix_refl. }
    subst calls. right.
      destruct P as [rest P]. cbn [app] in P. injection P as <- P.
      exists (l' ++ [EvRollback]).
      assert (T : forall ev, In ev (l' ++ [EvRollback]) ->
                   ev = EvRollback \/ ev = EvCommit
                   \/ exists c, ev = EvExec c /\ In c (plannedExecs (txn_id_seq w + 1) muts)).
      { intros ev I. apply in_app_or in I. destruct I as [I|[<-|[]]]; [|now left].
        right. assert (I' : In ev (map EvExec (plannedExecs (txn_id_seq w + 1) muts) ++ [EvCommit]))
          by (rewrite P; apply in_or_app; now left).
        apply in_app_or in I'. destruct I' as [I'|[<-|[]]]; [right|now left].
        apply in_map_iff in I'. destruct I' as (c & <- & Ic). now exists c. }
      split; [now rewrite <- app_assoc|]. split; [|split; [|split]].
      * intros I. destruct (T _ I) as [X|[X|(c & X & _)]]; discriminate X.
      * intros q I. destruct (T _ I) as [X|[X|(c & X & _)]]; discriminate X.
      * intros c I. destruct (T _ I) as [X|[X|(c' & X & Ic)]]; try discriminate X.
        injection X as ->. now apply stamped_planned with (muts := muts).
      * intros rev ->. destruct O as (_ & -> & _ & X & _ & Cm & _).
        split; [reflexivity|]. split; [exact X|]. now rewrite Cm.
Qed.

Lemma success_rows {pre muts w w' rev} :
  WriteTuples pre muts w = (w', Ok rev) ->
  rev = revisionFromTransaction (txn_id_seq w + 1)
  /\ txn_id_seq w + 1 <> liveDeletedTxnID
  /\ relation_tuple (committed w') =
     map (close_any (txn_id_seq w + 1) (closes muts)) (relation_tuple (committed w))
     ++ new_rows (tuple_id_seq w) (txn_id_seq w + 1) (staged muts)
  /\ (uq_tuple_living w = true -> existsb isTouchOrCreate muts = true ->
      unique_live (relation_tuple (committed w')) = true)
  /\ log w' = log w ++ EvBegin :: plannedInTransaction (txn_id_seq w + 1) pre muts
                       ++ [EvRollback].
Proof.
  intros H.
  destruct (WriteTuples_run pre muts w w' _ _ H eq_refl) as (_ & _ & [B|T]).
  - destruct B as (_ & _ & _ & msg & X). discriminate X.
  - destruct T as (calls & _ & E & _ & O).
    destruct O as (-> & -> & Lt & _ & _ & Cm & _ & Ch).
    assert (N : txn_id_seq w + 1 <> liveDeletedTxnID) by lia.
    split; [reflexivity|]. split; [exact N|].
    rewrite Cm. cbn [relation_tuple]. unfold closedAndInserted in *.
    rewrite apply_closes_map in * by exact N.
    split; [reflexivity|]. split; [|apply E].
    intros U X. specialize (Ch X). unfold constraints_hold in Ch.
    rewrite U in Ch. exact Ch.
Qed.

(** C4: a successful call that contains a TOUCH of [tpl] executed the
    close of [tpl] and the batched insert with the row of [tpl], both
    stamped with the identifier it returns; where the schema enforces the
    uniqueness of live rows, afterwards exactly one live row has the key of
    [tpl], the new row created at that identifier is among the rows, and
    every row of that key that was live before is now closed at that same
    identifier. *)
Theorem WriteTuples_touch_replaces_live_row pre muts w w' rev tpl :
  uq_tuple_living w = true ->
  WriteTuples pre muts w = (w', Ok rev) ->
  In {| Operation := RelationTupleUpdate_TOUCH; Tuple := tpl |} muts ->
  rev = revisionFromTransaction (txn_id_seq w + 1)
  /\ (exists evs,
        log w' = log w ++ evs
        /\ In (EvExec (closeCommand (txn_id_seq w + 1) tpl)) evs
        /\ In (EvExec (InsertSql (bulkWriteOf (txn_id_seq w + 1) muts))) evs
        /\ In (tupleValues tpl (txn_id_seq w + 1))
              (ins_values (bulkWriteOf (txn_id_seq w + 1) muts)))
  /\ List.length (filter (live_with_key tpl) (relation_tuple (committed w'))) = 1%nat
  /\ (exists i, In (tuple_row i (txn_id_seq w + 1) tpl) (relation_tuple (committed w')))
  /\ (forall r, In r (relation_tuple (committed w)) ->
                live_with_key tpl r = true ->
                In (set_deleted (txn_id_seq w + 1) r) (relation_tuple (committed w'))).
Proof.
  intros U H I.
  set (m := {| Operation := RelationTupleUpdate_TOUCH; Tuple := tpl |}) in *.
  assert (TD : isTouchOrDelete m = true) by reflexivity.
  assert (TC : isTouchOrCreate m = true) by reflexivity.
  pose proof (In_closes _ _ I TD) as Ic. pose proof (In_staged _ _ I TC) as Is.
  pose proof (existsb_isTouchOrCreate _ _ I TC) as X.
  cbn [Tuple m] in Ic, Is.
  destruct (success_rows H) as (Hr & N & Rows & Uq & Lg).
  specialize (Uq U X).
  destruct (new_rows_In (txn_id_seq w + 1) tpl (staged muts) (tuple_id_seq w) Is) as (i & Hi).
  assert (Inew : In (tuple_row i (txn_id_seq w + 1) tpl) (relation_tuple (committed w')))
    by (rewrite Rows; apply in_or_app; now right).
  split; [exact Hr|]. split; [|split; [|split]].
  - eexists. split; [exact Lg|].
    unfold plannedInTransaction, plannedExecs. rewrite X.
    split; [|split].
    + right. apply in_or_app; left. apply in_or_app; right. right.
      apply in_or_app; left. apply in_map. apply in_or_app; left. now apply in_map.
    + right. apply in_or_app; left. apply in_or_app; right. right.
      apply in_or_app; left. apply in_map. apply in_or_app; right. now left.
    + cbn [bulkWriteOf ins_values].
      apply in_map with (f := fun k => tupleValues k (txn_id_seq w + 1)). exact Is.
  - apply Nat.le_antisymm.
    + now apply unique_live_at_most_one.
    + apply filter_length_pos with (x := tuple_row i (txn_id_seq w + 1) tpl); [exact Inew|].
      unfold live_with_key. now rewrite tuple_row_live, tuple_row_has_key.
  - now exists i.
  - intros r Ir Lk. rewrite Rows. apply in_or_app; left.
    apply in_map_iff. exists r. split; [|exact Ir].
    unfold live_with_key in Lk. apply andb_true_iff in Lk. destruct Lk as [L K].
    unfold close_any. rewrite L. cbn [andb].
    replace (existsb (fun k => has_key k r) (closes muts)) with true; [reflexivity|].
    symmetry. apply existsb_exists. now exists tpl.
Qed.

Lemma staged_nil muts : existsb isTouchOrCreate muts = false -> staged muts = [].
Proof.
  rewrite existsb_staged. destruct (staged muts); [reflexivity|discriminate].
Qed.

(** C7: where the schema enforces the uniqueness of live rows, a
    successful call keeps "at most one live row per key"; and for every
    CREATE or TOUCH mutation of the call, each row of its key that was live
    before the call is, after it, closed at the identifier the call
    returned. *)
Theorem WriteTuples_keeps_one_live_row_per_key pre muts w w' rev :
  uq_tuple_living w = true ->
  unique_live (relation_tuple (committed w)) = true ->
  WriteTuples pre muts w = (w', Ok rev) ->
  unique_live (relation_tuple (committed w')) = true
  /\ forall m r,
       In m muts -> isTouchOrCreate m = true ->
       In r (relation_tuple (committed w)) -> live_with_key (Tuple m) r = true ->
       In (set_deleted (txn_id_seq w + 1) r) (relation_tuple (committed w'))
       /\ is_live (set_deleted (txn_id_seq w + 1) r) = false.
Proof.
  intros U U0 H.
  destruct (success_rows H) as (Hr & N & Rows & Uq & _).
  split.
  - destruct (existsb isTouchOrCreate muts) eqn:X; [now apply Uq|].
    rewrite Rows, (staged_nil _ X). cbn [new_rows]. rewrite app_nil_r.
    apply unique_live_map; [|exact U0]. intros r. now apply close_any_live.
  - intros m r Im TC Ir Lk.
    split; [|now apply is_live_set_deleted].
    pose proof (existsb_isTouchOrCreate _ _ Im TC) as X. specialize (Uq U X).
    unfold live_with_key in Lk. apply andb_true_iff in Lk. destruct Lk as [L K].
    destruct (existsb (fun k => has_key k r) (closes muts)) eqn:Cl.
    + rewrite Rows. apply in_or_app; left. apply in_map_iff. exists r.
      split; [|exact Ir]. unfold close_any. now rewrite L, Cl.
    + exfalso.
      destruct (new_rows_In (txn_id_seq w + 1) (Tuple m) (staged muts) (tuple_id_seq w)
                  (In_staged _ _ Im TC)) as (i & Hi).
      rewrite Rows in Uq.
      apply (unique_live_app_disjoint _ _ r (tuple_row i (txn_id_seq w + 1) (Tuple m)) Uq).
      * apply in_map_iff. exists r. split; [|exact Ir].
        unfold close_any. rewrite L, Cl. reflexivity.
      * exact Hi.
      * exact L.
      * apply tuple_row_live.
      * apply (same_key_of_has_key (Tuple m)); [exact K|apply tuple_row_has_key].
Qed.

(** C8, as the code has it: an error of [WriteTuples] is either
    [PreconditionFailed] for one of the preconditions, which wraps nothing,
    or the underlying error wrapped with the one format
    [errUnableToWriteTuples], whatever the stage it comes from. *)
Theorem WriteTuples_error_is_precondition_or_wrapped pre muts w w' e :
  WriteTuples pre muts w = (w', Err e) ->
  (exists tpl, In tpl pre /\ e = NewPreconditionFailedErr tpl)
  \/ (exists c, c <> ErrNoRows /\ e = Errorf errUnableToWriteTuples c).
Proof.
  intros H.
  destruct (WriteTuples_run pre muts w w' _ _ H eq_refl) as (_ & _ & [B|T]).
  - destruct B as (_ & _ & _ & msg & X). injection X as ->.
    right. exists (ErrOther msg). split; [discriminate|reflexivity].
  - destruct T as (calls & _ & _ & _ & _ & [(tpl & checked & -> & I & _)|(c & -> & NC)]).
    + left. now exists tpl.
    + right. now exists c.
Qed.

Lemma WriteTuples_txn_id_seq_mono pre muts w :
  txn_id_seq w <= txn_id_seq (fst (WriteTuples pre muts w)).
Proof.
  destruct (WriteTuples pre muts w) as [w' r] eqn:H.
  now destruct (WriteTuples_run pre muts w w' _ _ H eq_refl) as (_ & M & _).
Qed.

Lemma run_calls_txn_id_seq_mono cs : forall w,
  txn_id_seq w <= txn_id_seq (run_calls cs w).
Proof.
  induction cs as [|c cs IH]; intros w; cbn [run_calls]; [lia|].
  pose proof (WriteTuples_txn_id_seq_mono (fst c) (snd c) w).
  specialize (IH (fst (WriteTuples (fst c) (snd c) w))). lia.
Qed.

Lemma WriteTuples_error_keeps_committed pre muts w w' e :
  WriteTuples pre muts w = (w', Err e) -> committed w' = committed w.
Proof.
  intros H.
  destruct (WriteTuples_run pre muts w w' _ _ H eq_refl) as (_ & _ & [B|T]).
  - now destruct B as (_ & (C & _) & _).
  - now destruct T as (calls & _ & _ & _ & C & _).
Qed.

(** C9: of two successful calls, the later one (whatever calls ran in
    between, failed or not) returns the strictly greater revision; and a
    call that fails leaves what readers see untouched, the identifier it
    may have allocated included. *)
Theorem WriteTuples_revisions_increase :
  (forall p1 m1 w w1 r1 between p2 m2 w2 r2,
      WriteTuples p1 m1 w = (w1, Ok r1) ->
      WriteTuples p2 m2 (run_calls between w1) = (w2, Ok r2) ->
      r1 < r2)
  /\ (forall pre muts w w' e,
        WriteTuples pre muts w = (w', Err e) -> committed w' = committed w).
Proof.
  split; [|exact WriteTuples_error_keeps_committed].
  intros p1 m1 w w1 r1 between p2 m2 w2 r2 H1 H2.
  destruct (WriteTuples_run p1 m1 w w1 _ _ H1 eq_refl) as (_ & _ & [B|T]).
  { destruct B as (_ & _ & _ & msg & X). discriminate X. }
  destruct T as (c1 & _ & _ & _ & O1). destruct O1 as (_ & -> & _ & X1 & _).
  destruct (WriteTuples_run p2 m2 _ w2 _ _ H2 eq_refl) as (_ & _ & [B|T]).
  { destruct B as (_ & _ & _ & msg & X). discriminate X. }
  destruct T as (c2 & _ & _ & _ & O2). destruct O2 as (_ & -> & _).
  pose proof (run_calls_txn_id_seq_mono between w1).
  unfold revisionFromTransaction. lia.
Qed.

Lemma processUpdates_skips_unknown n op tpl m2 : forall m1 acc w,
  op <> RelationTupleUpdate_CREATE ->
  op <> RelationTupleUpdate_TOUCH ->
  op <> RelationTupleUpdate_DELETE ->
  processUpdates n (m1 ++ {| Operation := op; Tuple := tpl |} :: m2) acc w
  = processUpdates n (m1 ++ m2) acc w.
Proof.
  intros m1 acc w NC NT ND. revert acc w.
  induction m1 as [|m m1 IH]; intros acc w.
  - cbn [app processUpdates]. unfold bind. rewrite processUpdate_eq.
    unfold isTouchOrDelete, stage, isTouchOrCreate. cbn [Operation].
    apply Z.eqb_neq in NC, NT, ND. now rewrite NC, NT, ND.
  - cbn [app processUpdates]. unfold bind.
    destruct (processUpdate n m acc w) as [w1 [acc1|e]]; [apply IH|reflexivity].
Qed.

(** C10: a mutation whose tag is none of CREATE, TOUCH and DELETE changes
    nothing: the call does, returns and leaves behind exactly what it would
    without that mutation. *)
Theorem WriteTuples_ignores_unknown_operation op tpl pre m1 m2 w :
  op <> RelationTupleUpdate_CREATE ->
  op <> RelationTupleUpdate_TOUCH ->
  op <> RelationTupleUpdate_DELETE ->
  WriteTuples pre (m1 ++ {| Operation := op; Tuple := tpl |} :: m2) w
  = WriteTuples pre (m1 ++ m2) w.
Proof.
  intros NC NT ND. unfold WriteTuples, bind, defer.
  destruct (wrap Begin w) as [w1 [u|e]]; [|reflexivity].
  unfold writeInTransaction, bind.
  destruct (checkPreconditions pre w1) as [w2 [u2|e]]; [|reflexivity].
  destruct (wrap createNewTransaction w2) as [w3 [n|e]]; [|reflexivity].
  now rewrite processUpdates_skips_unknown.
Qed.

(** ** Runs without failure of the engine *)

Lemma evolves_script_nil {evs w w'} : evolves evs w w' -> script w = [] -> script w' = [].
Proof. intros (_ & S & _) N. rewrite S. now apply skipn_script_nil. Qed.

Lemma checkPreconditions_pass pre : forall w t,
  script w = [] -> active w = Some t ->
  Forall (fun tpl => existsb (has_key tpl) (relation_tuple t) = true) pre ->
  exists w', checkPreconditions pre w = (w', Ok tt).
Proof.
  induction pre as [|tpl pre IH]; intros w t S A F.
  - now exists w.
  - inversion F as [|? ? F1 F2]; subst.
    cbn [checkPreconditions]. unfold bind. rewrite checkPrecondition_eq, S, A, F1.
    apply IH with (t := t); [|exact A|exact F2].
    unfold issue; simpl. now rewrite S.
Qed.

Lemma constraints_hold_close w n k rows :
  n <> liveDeletedTxnID ->
  constraints_hold w rows = true ->
  constraints_hold w (map (close_row n k) rows) = true.
Proof.
  unfold constraints_hold. intros N H.
  destruct (uq_tuple_living w); [|reflexivity]. cbn [negb orb] in *.
  apply unique_live_map; [|exact H]. intros r. now apply close_row_live.
Qed.

Lemma processUpdates_pass n muts : forall acc w t,
  n <> liveDeletedTxnID ->
  script w = [] -> active w = Some t ->
  constraints_hold w (relation_tuple t) = true ->
  exists w', processUpdates n muts acc w = (w', Ok (fold_left (stage n) muts acc)).
Proof.
  induction muts as [|m muts IH]; intros acc w t N S A C.
  - now exists w.
  - cbn [processUpdates fold_left]. unfold bind. rewrite processUpdate_eq.
    destruct (isTouchOrDelete m).
    + rewrite Exec_close, S, A. cbv zeta.
      rewrite (constraints_hold_close w n (Tuple m) _ N C).
      apply IH with (t := set_rows (map (close_row n (Tuple m)) (relation_tuple t)) t);
        [exact N| | |].
      * unfold issue; simpl. now rewrite S.
      * reflexivity.
      * exact (constraints_hold_close w n (Tuple m) _ N C).
    + now apply IH with (t := t).
Qed.

Lemma executeBulkWrite_pass n muts w t :
  script w = [] -> active w = Some t ->
  (existsb isTouchOrCreate muts = true ->
   constraints_hold w (relation_tuple t
                       ++ new_rows (tuple_id_seq w) n (staged muts)) = true) ->
  exists w', executeBulkWrite (bulkWriteOf n muts, existsb isTouchOrCreate muts) w
             = (w', Ok tt).
Proof.
  intros S A C. unfold executeBulkWrite. cbn [fst snd].
  pose proof (existsb_staged muts) as ES.
  destruct (existsb isTouchOrCreate muts) eqn:X; [|now exists w].
  specialize (C eq_refl).
  unfold bind, wrap, mapErr, lift, ret, InsertToSql.
  destruct (ins_values (bulkWriteOf n muts)) as [|v vs] eqn:V.
  { cbn [bulkWriteOf ins_values] in V. destruct (staged muts); discriminate. }
  unfold Exec, issue. rewrite S. cbn [active tuple_id_seq]. rewrite A.
  cbn [bulkWriteOf ins_columns ins_values].
  change [colNamespace; colObjectID; colRelation; colUsersetNamespace;
          colUsersetObjectID; colUsersetRelation; colCreatedTxn]
    with (ins_columns writeTuple).
  rewrite run_insert_staged.
  unfold constraints_hold in *. cbn [set_tuple_id_seq uq_tuple_living].
  rewrite C. eexists; reflexivity.
Qed.

(** Without failure of the engine, a call succeeds as soon as every
    precondition has a stored row, the sequence is not exhausted, the
    stored rows satisfy the constraint of the schema and so do the rows the
    call leaves behind. *)
Lemma WriteTuples_succeeds pre muts w :
  script w = [] ->
  txn_id_seq w + 1 < liveDeletedTxnID ->
  Forall (fun tpl => existsb (has_key tpl) (relation_tuple (committed w)) = true) pre ->
  constraints_hold w (relation_tuple (committed w)) = true ->
  (existsb isTouchOrCreate muts = true ->
   constraints_hold w
     (closedAndInserted (txn_id_seq w + 1) muts (tuple_id_seq w)
        (relation_tuple (committed w))) = true) ->
  exists w',
    WriteTuples pre muts w = (w', Ok (revisionFromTransaction (txn_id_seq w + 1))).
Proof.
  intros S Lt F C0 C1.
  unfold WriteTuples, bind, wrap, mapErr, defer.
  destruct (Begin w) as [w1 r1] eqn:B.
  assert (B' := B). unfold Begin, issue in B'. rewrite S in B'. injection B' as W1 R1.
  subst r1. apply Begin_run in B. destruct B as (E1 & (S1c & S1t & S1x) & A1).
  pose proof (evolves_script_nil E1 S) as Sc1.
  assert (U1 : uq_tuple_living w1 = uq_tuple_living w) by apply E1.
  unfold writeInTransaction, bind.
  destruct (checkPreconditions_pass pre w1 (committed w) Sc1 A1 F) as (w2 & P).
  rewrite P. apply checkPreconditions_run in P.
  destruct P as (checked & _ & E2 & (S2c & S2t & S2x) & A2 & _).
  pose proof (evolves_script_nil E2 Sc1) as Sc2.
  assert (U2 : uq_tuple_living w2 = uq_tuple_living w) by (destruct E2 as (_ & _ & ->); exact U1).
  rewrite A1 in A2.
  unfold wrap, mapErr.
  destruct (createNewTransaction w2) as [w3 r3] eqn:Cr.
  assert (Cr' := Cr). unfold createNewTransaction, issue in Cr'.
  rewrite Sc2 in Cr'. cbn [active txn_id_seq] in Cr'. rewrite A2 in Cr'.
  assert (L : (txn_id_seq w2 + 1 <? liveDeletedTxnID) = true) by (apply Z.ltb_lt; lia).
  rewrite L in Cr'. injection Cr' as W3 R3. subst r3.
  apply createNewTransaction_run in Cr.
  destruct Cr as (E3 & S3c & S3t & _ & _ & S3x & t & At & A3).
  rewrite A2 in At. injection At as <-.
  pose proof (evolves_script_nil E3 Sc2) as Sc3.
  assert (U3 : uq_tuple_living w3 = uq_tuple_living w) by (destruct E3 as (_ & _ & ->); exact U2).
  assert (Hn : txn_id_seq w2 + 1 = txn_id_seq w + 1) by lia. rewrite Hn in *.
  set (n := txn_id_seq w + 1) in *.
  assert (N : n <> liveDeletedTxnID) by lia.
  destruct (processUpdates_pass n muts (writeTuple, false) w3 _ N Sc3 A3) as (w4 & Pu).
  { cbn [relation_tuple]. rewrite <- C0. now apply constraints_hold_uq. }
  rewrite Pu. apply processUpdates_run in Pu.
  destruct Pu as (done & _ & E4 & (S4c & S4t & S4x) & _ & _ & A4).
  rewrite A3 in A4. cbn [option_map set_rows relation_tuple relation_tuple_transaction] in A4.
  pose proof (evolves_script_nil E4 Sc3) as Sc4.
  assert (U4 : uq_tuple_living w4 = uq_tuple_living w) by (destruct E4 as (_ & _ & ->); exact U3).
  rewrite stage_fold_writeTuple.
  destruct (executeBulkWrite_pass n muts w4 _ Sc4 A4) as (w5 & Bw).
  { intros X. cbn [relation_tuple].
    replace (tuple_id_seq w4) with (tuple_id_seq w) by congruence.
    rewrite <- (C1 X). now apply constraints_hold_uq. }
  rewrite Bw. apply executeBulkWrite_run in Bw.
  destruct Bw as (E5 & _ & _ & _ & A5 & _).
  rewrite A4 in A5. cbn [option_map] in A5.
  pose proof (evolves_script_nil E5 Sc4) as Sc5.
  unfold Commit, issue. rewrite Sc5. cbn [active]. rewrite A5.
  eexists; reflexivity.
Qed.

Lemma success_store {pre muts w w' rev} :
  WriteTuples pre muts w = (w', Ok rev) ->
  txn_id_seq w' = txn_id_seq w + 1
  /\ relation_tuple_transaction (committed w')
     = relation_tuple_transaction (committed w) ++ [txn_id_seq w + 1]
  /\ Forall (fun tpl => existsb (has_key tpl) (relation_tuple (committed w)) = true) pre.
Proof.
  intros H.
  destruct (WriteTuples_run pre muts w w' _ _ H eq_refl) as (_ & _ & [B|T]).
  - destruct B as (_ & _ & _ & msg & X). discriminate X.
  - destruct T as (calls & _ & _ & _ & O).
    destruct O as (_ & _ & _ & X & _ & Cm & F & _).
    split; [exact X|]. split; [now rewrite Cm|exact F].
Qed.

Lemma deletes_stage_nothing {rows muts} :
  Forall (deletesAbsentKey rows) muts ->
  existsb isTouchOrCreate muts = false /\ closes muts = map Tuple muts.
Proof.
  induction 1 as [|m muts [D _] _ [IH1 IH2]]; [split; reflexivity|].
  unfold closes in *. cbn [existsb filter map].
  unfold isTouchOrCreate at 1, isTouchOrDelete at 1. rewrite D. cbn.
  split; [exact IH1|now rewrite IH2].
Qed.

Lemma deletes_close_nothing n rows muts r :
  Forall (deletesAbsentKey rows) muts ->
  In r rows -> close_any n (map Tuple muts) r = r.
Proof.
  intros F I. unfold close_any.
  destruct (is_live r) eqn:L; [|reflexivity]. cbn [andb].
  replace (existsb (fun k => has_key k r) (map Tuple muts)) with false; [reflexivity|].
  symmetry. induction F as [|m muts [_ A] _ IH]; [reflexivity|].
  cbn [map existsb]. rewrite IH, orb_false_r.
  destruct (has_key (Tuple m) r) eqn:K; [|reflexivity].
  assert (existsb (live_with_key (Tuple m)) rows = true); [|congruence].
  apply existsb_exists. exists r. split; [exact I|]. unfold live_with_key. now rewrite L, K.
Qed.

(** The close of a key that has no live row matches zero rows and is not
    an error. *)
Lemma Exec_close_of_absent_key n k w t :
  script w = [] -> active w = Some t ->
  constraints_hold w (relation_tuple t) = true ->
  existsb (live_with_key k) (relation_tuple t) = false ->
  snd (Exec (closeCommand n k) w) = Ok 0
  /\ active (fst (Exec (closeCommand n k) w)) = Some t.
Proof.
  intros S A C X. rewrite Exec_close, S, A. cbv zeta.
  assert (Same : map (close_row n k) (relation_tuple t) = relation_tuple t).
  { rewrite <- (map_id (relation_tuple t)) at 2. apply map_ext_in. intros r I.
    unfold close_row. fold (live_with_key k r).
    replace (live_with_key k r) with false; [reflexivity|].
    symmetry. destruct (live_with_key k r) eqn:L; [|reflexivity].
    assert (existsb (live_with_key k) (relation_tuple t) = true); [|congruence].
    apply existsb_exists. now exists r. }
  rewrite Same, C. cbn [fst snd active set_active]. rewrite set_rows_id.
  split; [|reflexivity]. unfold closed_count.
  apply filter_nil_existsb in X. unfold live_with_key in X. now rewrite X.
Qed.

(** C6: without failure of the engine, a call whose preconditions have
    their rows and whose mutations are DELETEs of keys that have no live
    row succeeds: it returns the identifier it allocated, records it as a
    transaction, executes one close per DELETE and leaves every tuple row
    as it was. *)
Theorem WriteTuples_delete_of_absent_key pre muts w :
  script w = [] ->
  txn_id_seq w + 1 < liveDeletedTxnID ->
  constraints_hold w (relation_tuple (committed w)) = true ->
  Forall (fun tpl => existsb (has_key tpl) (relation_tuple (committed w)) = true) pre ->
  Forall (deletesAbsentKey (relation_tuple (committed w))) muts ->
  exists w',
    WriteTuples pre muts w = (w', Ok (revisionFromTransaction (txn_id_seq w + 1)))
    /\ relation_tuple (committed w') = relation_tuple (committed w)
    /\ relation_tuple_transaction (committed w')
       = relation_tuple_transaction (committed w) ++ [txn_id_seq w + 1]
    /\ txn_id_seq w' = txn_id_seq w + 1
    /\ exists evs,
         log w' = log w ++ evs
         /\ execs evs = map (fun m => closeCommand (txn_id_seq w + 1) (Tuple m)) muts.
Proof.
  intros S Lt C0 F D.
  destruct (deletes_stage_nothing D) as (X & Cl).
  destruct (WriteTuples_succeeds pre muts w S Lt F C0) as (w' & H).
  { rewrite X. discriminate. }
  exists w'. split; [exact H|].
  destruct (success_rows H) as (_ & N & Rows & _ & Lg).
  destruct (success_store H) as (Sx & Tx & _).
  split; [|split; [exact Tx|split; [exact Sx|]]].
  - rewrite Rows, (staged_nil _ X), Cl. cbn [new_rows]. rewrite app_nil_r.
    rewrite <- (map_id (relation_tuple (committed w))) at 2.
    apply map_ext_in. intros r I. now apply deletes_close_nothing with (rows := relation_tuple (committed w)).
  - eexists. split; [exact Lg|].
    rewrite execs_bracket, execs_planned. unfold plannedExecs.
    rewrite X, Cl, app_nil_r, map_map. reflexivity.
Qed.

(** C1: the existence query has no condition on [deleted_transaction]: a
    precondition whose only stored row was closed at transaction 2 passes,
    and the call succeeds with revision 4. *)
Theorem WriteTuples_accepts_precondition_on_closed_row :
  existsb (live_with_key (viewerOf "plan" "alice"))
          (relation_tuple (committed (poolWith [viewerRow 1 "plan" "alice" 1 2] []))) = false
  /\ snd (WriteTuples [viewerOf "plan" "alice"] []
            (poolWith [viewerRow 1 "plan" "alice" 1 2] []))
     = Ok 4.
Proof. split; vm_compute; reflexivity. Qed.

(** C8, as stated, fails: no reading of the returned error gives the stage
    of the failure.  The same driver failure, once in the existence query
    and once in the commit, comes back as the same error value. *)
Lemma WriteTuples_error_has_no_stage_label :
  ~ exists label : error -> Stage,
      forall pre muts w w' e,
        WriteTuples pre muts w = (w', Err e) ->
        (forall tpl, e <> NewPreconditionFailedErr tpl) ->
        failed_stage w' = Some (label e).
Proof.
  intros (label & L).
  set (e := Errorf errUnableToWriteTuples (ErrOther "connection reset")).
  set (wq := poolWith [] [None; Some "connection reset"]).
  set (wc := poolWith [] [None; None; Some "connection reset"]).
  assert (Hq : WriteTuples [viewerOf "plan" "alice"] [] wq
               = (fst (WriteTuples [viewerOf "plan" "alice"] [] wq), Err e))
    by (vm_compute; reflexivity).
  assert (Hc : WriteTuples [] [] wc = (fst (WriteTuples [] [] wc), Err e))
    by (vm_compute; reflexivity).
  assert (N : forall tpl, e <> NewPreconditionFailedErr tpl) by (intros tpl; discriminate).
  pose proof (L _ _ _ _ _ Hq N) as Sq. pose proof (L _ _ _ _ _ Hc N) as Sc.
  assert (Fq : failed_stage (fst (WriteTuples [viewerOf "plan" "alice"] [] wq))
               = Some PreconditionCheck) by (vm_compute; reflexivity).
  assert (Fc : failed_stage (fst (WriteTuples [] [] wc)) = Some CommitStage)
    by (vm_compute; reflexivity).
  rewrite Fq in Sq. rewrite Fc in Sc. congruence.
Qed.

(** Without the uniqueness constraint in the schema nothing in
    [WriteTuples] keeps one live row per key: two TOUCH of one key in one
    call succeed and leave two live rows. *)
Lemma WriteTuples_relies_on_the_constraint :
  let w := {| committed := {| relation_tuple := [viewerRow 1 "plan" "alice" 1 liveDeletedTxnID];
                              relation_tuple_transaction := [1; 2; 3] |};
              active := None; tuple_id_seq := 10; txn_id_seq := 3;
              uq_tuple_living := false; script := []; log := [] |} in
  let muts := [update RelationTupleUpdate_TOUCH (viewerOf "plan" "alice");
               update RelationTupleUpdate_TOUCH (viewerOf "plan" "alice")] in
  snd (WriteTuples [] muts w) = Ok 4
  /\ List.length (filter (live_with_key (viewerOf "plan" "alice"))
                    (relation_tuple (committed (fst (WriteTuples [] muts w))))) = 2%nat.
Proof. split; vm_compute; reflexivity. Qed.

(** With the constraint, the same call fails in the batched insert, and
    so does a CREATE of a key that is live. *)
Lemma WriteTuples_duplicate_key_is_refused :
  snd (WriteTuples []
         [update RelationTupleUpdate_TOUCH (viewerOf "plan" "alice");
          update RelationTupleUpdate_TOUCH (viewerOf "plan" "alice")]
         (poolWith [viewerRow 1 "plan" "alice" 1 liveDeletedTxnID] []))
  = Err (Errorf errUnableToWriteTuples
           (ErrOther "duplicate key value violates unique constraint"))
  /\ snd (WriteTuples []
            [update RelationTupleUpdate_CREATE (viewerOf "plan" "alice")]
            (poolWith [viewerRow 1 "plan" "alice" 1 liveDeletedTxnID] []))
     = Err (Errorf errUnableToWriteTuples
              (ErrOther "duplicate key value violates unique constraint")).
Proof. split; vm_compute; reflexivity. Qed.

Lemma alicePool_touchAndCreate :
  WriteTuples [viewerOf "plan" "alice"] touchAndCreate alicePool
  = (fst (WriteTuples [viewerOf "plan" "alice"] touchAndCreate alicePool), Ok 4).
Proof. vm_compute; reflexivity. Defined.

Lemma WriteTuples_precondition_failed_no_effect_witness :
  WriteTuples [viewerOf "plan" "bob"] deleteBob alicePool
  = (fst (WriteTuples [viewerOf "plan" "bob"] deleteBob alicePool),
     Err (NewPreconditionFailedErr (viewerOf "plan" "bob")))
  /\ (committed (fst (WriteTuples [viewerOf "plan" "bob"] deleteBob alicePool))
      = committed alicePool
      /\ txn_id_seq (fst (WriteTuples [viewerOf "plan" "bob"] deleteBob alicePool))
         = txn_id_seq alicePool
      /\ tuple_id_seq (fst (WriteTuples [viewerOf "plan" "bob"] deleteBob alicePool))
         = tuple_id_seq alicePool
      /\ active (fst (WriteTuples [viewerOf "plan" "bob"] deleteBob alicePool)) = None
      /\ exists checked,
           is_prefix checked [viewerOf "plan" "bob"]
           /\ log (fst (WriteTuples [viewerOf "plan" "bob"] deleteBob alicePool))
              = log alicePool ++ EvBegin :: plannedQueries checked ++ [EvRollback]).
Proof.
  assert (H : WriteTuples [viewerOf "plan" "bob"] deleteBob alicePool
              = (fst (WriteTuples [viewerOf "plan" "bob"] deleteBob alicePool),
                 Err (NewPreconditionFailedErr (viewerOf "plan" "bob"))))
    by (vm_compute; reflexivity).
  split; [exact H|].
  exact (WriteTuples_precondition_failed_no_effect _ _ _ _ _ H).
Defined.

Lemma WriteTuples_closes_then_single_insert_witness :
  WriteTuples [viewerOf "plan" "alice"] touchAndCreate alicePool
  = (fst (WriteTuples [viewerOf "plan" "alice"] touchAndCreate alicePool), Ok 4)
  /\ exists evs,
       log (fst (WriteTuples [viewerOf "plan" "alice"] touchAndCreate alicePool))
       = log alicePool ++ evs
       /\ is_prefix (execs evs) (plannedExecs (txn_id_seq alicePool + 1) touchAndCreate)
       /\ (forall rev, @Ok error Revision 4 = Ok rev ->
             execs evs = plannedExecs (txn_id_seq alicePool + 1) touchAndCreate).
Proof.
  split; [exact alicePool_touchAndCreate|].
  exact (WriteTuples_closes_then_single_insert _ _ _ _ _ alicePool_touchAndCreate).
Defined.

Lemma WriteTuples_touch_replaces_live_row_witness :
  uq_tuple_living alicePool = true
  /\ In {| Operation := RelationTupleUpdate_TOUCH; Tuple := viewerOf "plan" "alice" |}
        touchAndCreate
  /\ List.length
       (filter (live_with_key (viewerOf "plan" "alice"))
          (relation_tuple
             (committed (fst (WriteTuples [viewerOf "plan" "alice"] touchAndCreate
                                alicePool))))) = 1%nat.
Proof.
  assert (U : uq_tuple_living alicePool = true) by reflexivity.
  assert (I : In {| Operation := RelationTupleUpdate_TOUCH;
                    Tuple := viewerOf "plan" "alice" |} touchAndCreate)
    by (left; reflexivity).
  split; [exact U|]. split; [exact I|].
  exact (proj1 (proj2 (proj2
           (WriteTuples_touch_replaces_live_row _ _ _ _ _ _ U alicePool_touchAndCreate I)))).
Defined.

Lemma WriteTuples_allocates_once_witness :
  WriteTuples [viewerOf "plan" "alice"] touchAndCreate alicePool
  = (fst (WriteTuples [viewerOf "plan" "alice"] touchAndCreate alicePool), Ok 4)
  /\ exists evs,
       log (fst (WriteTuples [viewerOf "plan" "alice"] touchAndCreate alicePool))
       = log alicePool ++ evs
       /\ ((~ In EvCreateTxn evs /\ (forall c, ~ In (EvExec c) evs)
            /\ exists e, @Ok error Revision 4 = Err e)
           \/ exists tail,
                evs = EvBegin :: plannedQueries [viewerOf "plan" "alice"]
                              ++ EvCreateTxn :: tail
                /\ ~ In EvCreateTxn tail
                /\ (forall q, ~ In (EvQueryRow q) tail)
                /\ (forall c, In (EvExec c) tail -> stamped (txn_id_seq alicePool + 1) c)
                /\ (forall rev, @Ok error Revision 4 = Ok rev ->
                      rev = revisionFromTransaction (txn_id_seq alicePool + 1)
                      /\ txn_id_seq (fst (WriteTuples [viewerOf "plan" "alice"]
                                            touchAndCreate alicePool))
                         = txn_id_seq alicePool + 1
                      /\ relation_tuple_transaction
                           (committed (fst (WriteTuples [viewerOf "plan" "alice"]
                                              touchAndCreate alicePool)))
                         = relation_tuple_transaction (committed alicePool)
                           ++ [txn_id_seq alicePool + 1])).
Proof.
  split; [exact alicePool_touchAndCreate|].
  exact (WriteTuples_allocates_once _ _ _ _ _ alicePool_touchAndCreate).
Defined.

Lemma WriteTuples_delete_of_absent_key_witness :
  script alicePool = []
  /\ txn_id_seq alicePool + 1 < liveDeletedTxnID
  /\ constraints_hold alicePool (relation_tuple (committed alicePool)) = true
  /\ Forall (fun tpl => existsb (has_key tpl) (relation_tuple (committed alicePool)) = true)
            [viewerOf "plan" "alice"]
  /\ Forall (deletesAbsentKey (relation_tuple (committed alicePool))) deleteBob
  /\ exists w',
       WriteTuples [viewerOf "plan" "alice"] deleteBob alicePool
       = (w', Ok (revisionFromTransaction (txn_id_seq alicePool + 1)))
       /\ relation_tuple (committed w') = relation_tuple (committed alicePool).
Proof.
  assert (S : script alicePool = []) by reflexivity.
  assert (L : txn_id_seq alicePool + 1 < liveDeletedTxnID) by (vm_compute; reflexivity).
  assert (C : constraints_hold alicePool (relation_tuple (committed alicePool)) = true)
    by reflexivity.
  assert (F : Forall (fun tpl => existsb (has_key tpl)
                                   (relation_tuple (committed alicePool)) = true)
                     [viewerOf "plan" "alice"])
    by (repeat constructor).
  assert (D : Forall (deletesAbsentKey (relation_tuple (committed alicePool))) deleteBob)
    by (repeat constructor).
  repeat (split; [assumption|]).
  destruct (WriteTuples_delete_of_absent_key [viewerOf "plan" "alice"] deleteBob alicePool
              S L C F D) as (w' & H & R & _).
  exists w'. split; [exact H|exact R].
Defined.

Lemma WriteTuples_keeps_one_live_row_per_key_witness :
  uq_tuple_living alicePool = true
  /\ unique_live (relation_tuple (committed alicePool)) = true
  /\ unique_live
       (relation_tuple
          (committed (fst (WriteTuples [viewerOf "plan" "alice"] touchAndCreate alicePool))))
     = true.
Proof.
  assert (U : uq_tuple_living alicePool = true) by reflexivity.
  assert (U0 : unique_live (relation_tuple (committed alicePool)) = true) by reflexivity.
  split; [exact U|]. split; [exact U0|].
  exact (proj1 (WriteTuples_keeps_one_live_row_per_key _ _ _ _ _ U U0 alicePool_touchAndCreate)).
Defined.

Lemma WriteTuples_error_is_precondition_or_wrapped_witness :
  WriteTuples [viewerOf "plan" "alice"] touchAndCreate commitFails
  = (fst (WriteTuples [viewerOf "plan" "alice"] touchAndCreate commitFails),
     Err (Errorf errUnableToWriteTuples (ErrOther "connection reset")))
  /\ ((exists tpl, In tpl [viewerOf "plan" "alice"]
                   /\ Errorf errUnableToWriteTuples (ErrOther "connection reset")
                      = NewPreconditionFailedErr tpl)
      \/ (exists c, c <> ErrNoRows
                    /\ Errorf errUnableToWriteTuples (ErrOther "connection reset")
                       = Errorf errUnableToWriteTuples c)).
Proof.
  assert (H : WriteTuples [viewerOf "plan" "alice"] touchAndCreate commitFails
              = (fst (WriteTuples [viewerOf "plan" "alice"] touchAndCreate commitFails),
                 Err (Errorf errUnableToWriteTuples (ErrOther "connection reset"))))
    by (vm_compute; reflexivity).
  split; [exact H|].
  exact (WriteTuples_error_is_precondition_or_wrapped _ _ _ _ _ H).
Defined.

Lemma WriteTuples_revisions_increase_witness :
  WriteTuples [viewerOf "plan" "alice"] touchAndCreate alicePool
  = (fst (WriteTuples [viewerOf "plan" "alice"] touchAndCreate alicePool), Ok 4)
  /\ WriteTuples [] deleteBob
       (run_calls [([viewerOf "plan" "carol"], deleteBob)]
          (fst (WriteTuples [viewerOf "plan" "alice"] touchAndCreate alicePool)))
     = (fst (WriteTuples [] deleteBob
               (run_calls [([viewerOf "plan" "carol"], deleteBob)]
                  (fst (WriteTuples [viewerOf "plan" "alice"] touchAndCreate alicePool)))),
        Ok 5)
  /\ 4 < 5.
Proof.
  assert (H2 : WriteTuples [] deleteBob
       (run_calls [([viewerOf "plan" "carol"], deleteBob)]
          (fst (WriteTuples [viewerOf "plan" "alice"] touchAndCreate alicePool)))
     = (fst (WriteTuples [] deleteBob
               (run_calls [([viewerOf "plan" "carol"], deleteBob)]
                  (fst (WriteTuples [viewerOf "plan" "alice"] touchAndCreate alicePool)))),
        Ok 5)) by (vm_compute; reflexivity).
  split; [exact alicePool_touchAndCreate|]. split; [exact H2|].
  exact (proj1 WriteTuples_revisions_increase _ _ _ _ _ _ _ _ _ _
           alicePool_touchAndCreate H2).
Defined.

Lemma WriteTuples_ignores_unknown_operation_witness :
  RelationTupleUpdate_UNKNOWN <> RelationTupleUpdate_CREATE
  /\ RelationTupleUpdate_UNKNOWN <> RelationTupleUpdate_TOUCH
  /\ RelationTupleUpdate_UNKNOWN <> RelationTupleUpdate_DELETE
  /\ WriteTuples [viewerOf "plan" "alice"]
       ([update RelationTupleUpdate_TOUCH (viewerOf "plan" "alice")]
        ++ {| Operation := RelationTupleUpdate_UNKNOWN; Tuple := viewerOf "plan" "carol" |}
        :: [update RelationTupleUpdate_CREATE (viewerOf "plan" "bob")]) alicePool
     = WriteTuples [viewerOf "plan" "alice"]
         ([update RelationTupleUpdate_TOUCH (viewerOf "plan" "alice")]
          ++ [update RelationTupleUpdate_CREATE (viewerOf "plan" "bob")]) alicePool.
Proof.
  assert (NC : RelationTupleUpdate_UNKNOWN <> RelationTupleUpdate_CREATE) by discriminate.
  assert (NT : RelationTupleUpdate_UNKNOWN <> RelationTupleUpdate_TOUCH) by discriminate.
  assert (ND : RelationTupleUpdate_UNKNOWN <> RelationTupleUpdate_DELETE) by discriminate.
  repeat (split; [assumption|]).
  exact (WriteTuples_ignores_unknown_operation _ _ _ _ _ _ NC NT ND).
Defined.

(** Scenario A of the specification, computed: the old row of alice is
    closed at revision 4, the new rows of alice and bob are created at 4
    and live. *)
Lemma WriteTuples_touch_and_create_rows :
  relation_tuple
    (committed (fst (WriteTuples [viewerOf "plan" "alice"] touchAndCreate alicePool)))
  = [viewerRow 1 "plan" "alice" 1 4;
     viewerRow 11 "plan" "alice" 4 liveDeletedTxnID;
     viewerRow 12 "plan" "bob" 4 liveDeletedTxnID].
Proof. vm_compute; reflexivity. Qed.
